(** * The request dispatcher of supertokens-golang

    A shallow embedding of [supertokens/supertokens.go] (initialisation,
    the routing middleware, the error-handling chain, the CORS header
    aggregation) and of [recipe/session/refresh.go] (the session-refresh
    API handler), followed by the properties of the dispatcher.

    Go code is effectful: recipe modules, the downstream handler and the
    response writer all act on the outside world.  The embedding threads an
    abstract [World] through every external call and, next to it, keeps a
    log of the calls the dispatcher itself makes, in the order it makes
    them.  A run-time panic of the Go code is an explicit result. *)

From stdpp Require Import base option list gmap strings.
From Stdlib Require Import ZArith Ascii.

Local Open Scope Z_scope.
Local Open Scope string_scope.
Local Open Scope list_scope.

(** ** Go values the dispatcher looks at *)

(** Modelled from the spec: the declaration of the error types lives outside
    the three source files.  The spec's error taxonomy is a tagged union of
    [BadInputError{message}] and errors that are opaque to the dispatcher;
    [errorString] is what [errors.New] builds and [wrapError] is an error
    that wraps another one (its [Unwrap] returns [err]). *)
Inductive error : Type :=
| BadInputError (Msg : string)
| errorString (s : string)
| wrapError (msg : string) (err : error).

(** [err.Error()] *)
Definition Error (err : error) : string :=
  match err with
  | BadInputError Msg => Msg
  | errorString s => s
  | wrapError msg _ => msg
  end.

(** [errors.As(err, &BadInputError{})]: walks the chain of wrapped errors
    and reports whether one of them is a [BadInputError]. *)
Fixpoint errors_As_BadInputError (err : error) : bool :=
  match err with
  | BadInputError _ => true
  | errorString _ => false
  | wrapError _ inner => errors_As_BadInputError inner
  end.

(** [errors.New] *)
Definition errors_New (s : string) : error := errorString s.

(** Modelled from the spec: [NormalisedURLPath] and [NormalisedURLDomain]
    are value types declared outside the three source files; each holds
    its canonical string. *)
Record NormalisedURLPath : Type := { pathValue : string }.
Record NormalisedURLDomain : Type := { domainValue : string }.

(** Modelled from the spec: [fullPath = AppInfo.APIGatewayPath +
    normalizedPath]; the method itself is declared outside the three
    source files. *)
Definition AppendPath (n other : NormalisedURLPath) : NormalisedURLPath :=
  {| pathValue := pathValue n +:+ pathValue other |}.

Definition GetAsStringDangerous (n : NormalisedURLPath) : string := pathValue n.

(** [strings.HasPrefix(s, prefix)] *)
Definition strings_HasPrefix (s pre : string) : bool := String.prefix pre s.

Record NormalisedAppinfo : Type := {
  AppName : string;
  APIDomain : NormalisedURLDomain;
  WebsiteDomain : NormalisedURLDomain;
  APIBasePath : NormalisedURLPath;
  APIGatewayPath : NormalisedURLPath
}.

(** The part of [*http.Request] the dispatcher reads. *)
Record Request : Type := {
  URLPath : string;
  Method : string;
  Header : list (string * string)
}.

(** ** Results and the monad of the embedding *)

Inductive Panic : Type :=
| NilPointerDereference
| InterfaceConversion.

Inductive Result (A : Type) : Type :=
| Done (a : A)
| Panicked (p : Panic).
Arguments Done {A} a.
Arguments Panicked {A} p.

(** A computation over a state [S] that either finishes or panics; a panic
    keeps the state reached so far. *)
Definition M (S A : Type) : Type := S → Result A * S.

Definition ret {S A} (a : A) : M S A := λ st, (Done a, st).

Definition bind {S A B} (m : M S A) (k : A → M S B) : M S B :=
  λ st, match m st with
        | (Done a, st') => k a st'
        | (Panicked p, st') => (Panicked p, st')
        end.

Definition panic {S A} (p : Panic) : M S A := λ st, (Panicked p, st).

Declare Scope go_scope.
Delimit Scope go_scope with go.
Notation "x ← y ; z" := (bind y (λ x, z))
  (at level 20, y at level 100, z at level 200, only parsing) : go_scope.
Notation "' x ← y ; z" := (bind y (λ x, z))
  (at level 20, x pattern, y at level 100, z at level 200, only parsing) : go_scope.
Notation "y ;; z" := (bind y (λ _, z))
  (at level 100, z at level 200, only parsing, right associativity) : go_scope.
Local Open Scope go_scope.

(** [*p] for a Go pointer [p]: a nil pointer panics. *)
Definition deref {S A} (p : option A) : M S A :=
  match p with
  | Some a => ret a
  | None => panic NilPointerDereference
  end.

(** An external call: run it on the world and log it with what it
    returned. *)
Definition external {W E A} (f : W → A * W) (ev : A → E) : M (W * list E) A :=
  λ st, let '(a, w') := f (fst st) in (Done a, (w', snd st ++ [ev a])).

(** ** The dispatcher *)

(** What the dispatcher calls, in the order it calls it.  Recipe modules
    are named by their position in [RecipeModules]; each call carries its
    arguments and what it returned. *)
Inductive Event : Type :=
| EvReturnAPIIdIfCanHandleRequest
    (i : nat) (path : NormalisedURLPath) (method : string)
    (id : option string) (err : option error)
| EvHandleAPIRequest
    (i : nat) (id : string) (path : NormalisedURLPath) (method : string)
    (apiErr : option error)
| EvTheirHandler (r : Request)
| EvHandleError (i : nat) (err : error) (handled : bool) (err2 : option error)
| EvSendNon200Response (message : string) (statusCode : Z) (catcher : option error)
| EvOnGeneralError (err : error).

Section Supertokens.

Set Default Proof Using "Type".

(** The outside world: the response writer, the network, the state the
    recipes keep. *)
Variable World : Type.

(** [http.Handler]: [ServeHTTP(w, r)] *)
Definition Handler : Type := Request → World → World.

(** [RecipeModule], by the members the dispatcher uses.  [HandleError] is
    a function-valued field that may be nil. *)
Record RecipeModule : Type := {
  GetRecipeID : string;
  ReturnAPIIdIfCanHandleRequest :
    NormalisedURLPath → string → World → (option string * option error) * World;
  HandleAPIRequest :
    string → Request → Handler → NormalisedURLPath → string →
    World → option error * World;
  GetAllCORSHeaders : list string;
  HandleError :
    option (error → Request → World → (bool * option error) * World)
}.

Record superTokens : Type := {
  AppInfo : NormalisedAppinfo;
  RecipeModules : list RecipeModule;
  OnGeneralError : error → Request → World → World
}.

(** State of a request: the world and the log of dispatcher calls. *)
Definition ReqState : Type := World * list Event.

(** Functions of the package that are outside the three source files. *)
Variable NewNormalisedURLPath : string → option NormalisedURLPath * option error.
Variable getRIDFromRequest : Request → string.
Variable SendNon200Response : string → Z → World → option error * World.

Definition serveTheirHandler (theirHandler : Handler) (r : Request)
  : M ReqState unit :=
  external (λ w, (tt, theirHandler r w)) (λ _, EvTheirHandler r).

Definition callOnGeneralError (s : superTokens) (err : error) (req : Request)
  : M ReqState unit :=
  external (λ w, (tt, OnGeneralError s err req w)) (λ _, EvOnGeneralError err).

(** The loop of [errorHandler] over [s.RecipeModules], from position [i],
    with the statement that follows the loop as its base case. *)
Fixpoint errorHandlerLoop (s : superTokens) (err : error) (req : Request)
    (i : nat) (recipes : list RecipeModule) : M ReqState unit :=
  match recipes with
  | [] => callOnGeneralError s err req
  | recipe :: rest =>
      match HandleError recipe with
      | Some handleError =>
          '(handled, err2) ← external (handleError err req)
                                (λ res, EvHandleError i err res.1 res.2) ;
          match err2 with
          | Some e2 => callOnGeneralError s e2 req
          | None =>
              if handled then ret tt
              else errorHandlerLoop s err req (S i) rest
          end
      | None => errorHandlerLoop s err req (S i) rest
      end
  end.

Definition errorHandler (s : superTokens) (err : error) (req : Request)
  : M ReqState unit :=
  if errors_As_BadInputError err then
    catcher ← external (SendNon200Response (Error err) 400)
                 (EvSendNon200Response (Error err) 400) ;
    match catcher with
    | Some _ => callOnGeneralError s err req
    | None => ret tt
    end
  else errorHandlerLoop s err req 0%nat (RecipeModules s).

Definition callReturnAPIIdIfCanHandleRequest (i : nat) (m : RecipeModule)
    (path : NormalisedURLPath) (method : string)
  : M ReqState (option string * option error) :=
  external (ReturnAPIIdIfCanHandleRequest m path method)
    (λ res, EvReturnAPIIdIfCanHandleRequest i path method res.1 res.2).

Definition callHandleAPIRequest (i : nat) (m : RecipeModule) (id : string)
    (r : Request) (theirHandler : Handler)
    (path : NormalisedURLPath) (method : string)
  : M ReqState (option error) :=
  external (HandleAPIRequest m id r theirHandler path method)
    (EvHandleAPIRequest i id path method).

(** The first loop of [middleware]: the first module whose recipe id is
    [requestRID], with its position. *)
Fixpoint findMatchedRecipe (requestRID : string) (i : nat)
    (recipes : list RecipeModule) : option (nat * RecipeModule) :=
  match recipes with
  | [] => None
  | recipeModule :: rest =>
      if String.eqb (GetRecipeID recipeModule) requestRID
      then Some (i, recipeModule)
      else findMatchedRecipe requestRID (S i) rest
  end.

(** The second loop of [middleware] (no RID), from position [i], with
    the statement that follows the loop as its base case. *)
Fixpoint scanRecipeModules (s : superTokens) (theirHandler : Handler)
    (r : Request) (path : NormalisedURLPath) (method : string)
    (i : nat) (recipes : list RecipeModule) : M ReqState unit :=
  match recipes with
  | [] => serveTheirHandler theirHandler r
  | recipeModule :: rest =>
      '(id, err) ← callReturnAPIIdIfCanHandleRequest i recipeModule path method ;
      match err with
      | Some e => errorHandler s e r
      | None =>
          match id with
          | Some id' =>
              err' ← callHandleAPIRequest i recipeModule id' r theirHandler
                        path method ;
              match err' with
              | Some e => errorHandler s e r
              | None => ret tt
              end
          | None =>
              scanRecipeModules s theirHandler r path method (S i) rest
          end
      end
  end.

Definition middleware (s : superTokens) (theirHandler : Handler) (r : Request)
  : M ReqState unit :=
  let '(reqURL, err) := NewNormalisedURLPath (URLPath r) in
  match err with
  | Some e => errorHandler s e r
  | None => ret tt
  end ;;
  reqURL' ← deref reqURL ;
  let path := AppendPath (APIGatewayPath (AppInfo s)) reqURL' in
  let method := Method r in
  if negb (strings_HasPrefix (GetAsStringDangerous path)
             (GetAsStringDangerous (APIBasePath (AppInfo s))))
  then serveTheirHandler theirHandler r
  else
    let requestRID := getRIDFromRequest r in
    if negb (String.eqb requestRID "") then
      match findMatchedRecipe requestRID 0%nat (RecipeModules s) with
      | None => serveTheirHandler theirHandler r
      | Some (i, matchedRecipe) =>
          '(id, err) ← callReturnAPIIdIfCanHandleRequest i matchedRecipe
                          path method ;
          match err with
          | Some e => errorHandler s e r
          | None =>
              match id with
              | None => serveTheirHandler theirHandler r
              | Some id' =>
                  apiErr ← callHandleAPIRequest i matchedRecipe id' r
                              theirHandler path method ;
                  match apiErr with
                  | Some e => errorHandler s e r
                  | None => ret tt
                  end
              end
          end
      end
    else
      scanRecipeModules s theirHandler r path method 0%nat (RecipeModules s).

(** *** CORS headers *)

(** The two header names are constants declared outside the three source
    files. *)
Variable HeaderRID HeaderFDI : string.

(** [for header := range headerMap]: Go visits the keys of a map in an
    order it does not specify; [rangeKeys] is that order. *)
Variable rangeKeys : gmap string bool → list string.

Definition getAllCORSHeaders (s : superTokens) : list string :=
  let headerMap : gmap string bool :=
    <[HeaderFDI := true]> (<[HeaderRID := true]> ∅) in
  let headerMap :=
    foldl (λ headerMap recipe,
             foldl (λ headerMap header, <[header := true]> headerMap)
               headerMap (GetAllCORSHeaders recipe))
      headerMap (RecipeModules s) in
  foldl (λ headers header, headers ++ [header]) [] (rangeKeys headerMap).

(** *** Initialisation *)

(** The package-level variable [superTokensInstance], next to the world. *)
Record Globals : Type := {
  superTokensInstance : option superTokens;
  world : World
}.

Definition liftWorld {A} (f : World → A * World) : M Globals A :=
  λ g, let '(a, w') := f (world g) in
       (Done a, {| superTokensInstance := superTokensInstance g; world := w' |}).

(** [TypeInput] and what it refers to; the declarations are outside the
    three source files, the fields are those [supertokensInit] reads. *)
Variable AppInfoInput : Type.

Record SupertokenTypeInput : Type := {
  ConnectionURI : string;
  APIKey : option string
}.

Definition RecipeListFunction : Type :=
  NormalisedAppinfo → World → (option RecipeModule * option error) * World.

Record TypeInput : Type := {
  config_Supertokens : option SupertokenTypeInput;
  config_AppInfo : AppInfoInput;
  config_RecipeList : option (list RecipeListFunction);
  config_Telemetry : option bool;
  config_OnGeneralError : option (error → Request → World → World)
}.

Variable NormaliseInputAppInfoOrThrowError :
  AppInfoInput → NormalisedAppinfo * option error.
Variable NewNormalisedURLDomain :
  string → bool → option NormalisedURLDomain * option error.
Variable initQuerier : list NormalisedURLDomain → option string → World → World.
Variable http_Error : string → Z → World → World.

(** What [sendTelemetry] talks to. *)
Inductive GoValue : Type :=
| GoBool (b : bool)
| GoString (s : string)
| GoNumber (n : Z).

Variable Querier : Type.
Variable GetNewQuerierInstanceOrThrowError :
  string → World → (option Querier * option error) * World.
Variable SendGetRequest :
  Querier → string → World → (gmap string GoValue * option error) * World.
Variable json_Marshal : list (string * string) → string * option error.
Variable HTTPRequest : Type.
Variable http_NewRequest :
  string → string → string → option HTTPRequest * option error.
Variable client_Do : HTTPRequest → list (string * string) → World → option error * World.

(** [v.(bool)] and [v.(string)] on a value read from a map: a missing key
    reads as the nil interface, and a failed assertion panics. *)
Definition assertBool {S} (v : option GoValue) : M S bool :=
  match v with
  | Some (GoBool b) => ret b
  | _ => panic InterfaceConversion
  end.

Definition assertString {S} (v : option GoValue) : M S string :=
  match v with
  | Some (GoString s) => ret s
  | _ => panic InterfaceConversion
  end.

Definition defaultOnGeneralError (err : error) (req : Request) : World → World :=
  http_Error (Error err) 500.

Definition sendTelemetry : M Globals (option error) :=
  '(querier, err) ← liftWorld (GetNewQuerierInstanceOrThrowError "") ;
  match err with
  | Some e => ret (Some e)
  | None =>
    querier' ← deref querier ;
    '(response, err) ← liftWorld (SendGetRequest querier' "/telemetry") ;
    match err with
    | Some e => ret (Some e)
    | None =>
      exists_ ← assertBool (response !! "exists") ;
      telemetryID ← (if exists_ : bool then assertString (response !! "telemetryId")
                     else ret "") ;
      let url := "https://api.supertokens.io/0/st/telemetry" in
      instance ← (λ g, deref (superTokensInstance g) g) ;
      let data :=
        [("appName", AppName (AppInfo instance));
         ("websiteDomain", domainValue (WebsiteDomain (AppInfo instance)));
         ("telemetryId", telemetryID);
         ("sdk", "golang")] in
      let '(jsonData, err) := json_Marshal data in
      match err with
      | Some e => ret (Some e)
      | None =>
        let '(req, err) := http_NewRequest "POST" url jsonData in
        match err with
        | Some e => ret (Some e)
        | None =>
          req' ← deref req ;
          err ← liftWorld (client_Do req' [("api-version", "2")]) ;
          match err with
          | Some e => ret (Some e)
          | None => ret None
          end
        end
      end
    end
  end.

(** [strings.Split(s, sep)] for a one-character separator: the pieces
    between the separators, always at least one. *)
Fixpoint strings_Split (s : string) (sep : Ascii.ascii) : list string :=
  match s with
  | EmptyString => [EmptyString]
  | String c rest =>
    if Ascii.eqb c sep then EmptyString :: strings_Split rest sep
    else match strings_Split rest sep with
         | piece :: pieces => String c piece :: pieces
         | [] => [String c EmptyString]
         end
  end.

(** The loop over [hostList]. *)
Fixpoint normaliseHosts (hostList : list string) (hosts : list NormalisedURLDomain)
  : M Globals (list NormalisedURLDomain + error) :=
  match hostList with
  | [] => ret (inl hosts)
  | h :: rest =>
    let '(host, err) := NewNormalisedURLDomain h false in
    match err with
    | Some e => ret (inr e)
    | None =>
      host' ← deref host ;
      normaliseHosts rest (hosts ++ [host'])
    end
  end.

(** The loop over [config.RecipeList]. *)
Fixpoint buildRecipeModules (appInfo : NormalisedAppinfo)
    (recipeList : list RecipeListFunction) (recipeModules : list RecipeModule)
  : M Globals (list RecipeModule + error) :=
  match recipeList with
  | [] => ret (inl recipeModules)
  | elem :: rest =>
    '(recipeModule, err) ← liftWorld (elem appInfo) ;
    match err with
    | Some e => ret (inr e)
    | None =>
      recipeModule' ← deref recipeModule ;
      buildRecipeModules appInfo rest (recipeModules ++ [recipeModule'])
    end
  end.

Definition setInstance (s : superTokens) : M Globals unit :=
  λ g, (Done tt, {| superTokensInstance := Some s; world := world g |}).

Definition noRecipeError : error :=
  errors_New "please provide at least one recipe to the supertokens.init function call".

Definition supertokensInit (config : TypeInput) : M Globals (option error) :=
  λ g,
  match superTokensInstance g with
  | Some _ => ret None g
  | None =>
    (let onGeneralError :=
       match config_OnGeneralError config with
       | Some f => f
       | None => defaultOnGeneralError
       end in
     let '(appInfo, err) := NormaliseInputAppInfoOrThrowError (config_AppInfo config) in
     match err with
     | Some e => ret (Some e)
     | None =>
       querierErr ←
         match config_Supertokens config with
         | Some st =>
           let hostList := strings_Split (ConnectionURI st) ";"%char in
           hosts ← normaliseHosts hostList [] ;
           match hosts with
           | inr e => ret (Some e)
           | inl hosts' =>
             liftWorld (λ w, (tt, initQuerier hosts' (APIKey st) w)) ;;
             ret None
           end
         | None =>
           liftWorld (λ w, (tt, initQuerier [] None w)) ;;
           ret None
         end ;
       match querierErr with
       | Some e => ret (Some e)
       | None =>
         match config_RecipeList config with
         | None | Some [] => ret (Some noRecipeError)
         | Some recipeList =>
           modules ← buildRecipeModules appInfo recipeList [] ;
           match modules with
           | inr e => ret (Some e)
           | inl recipeModules =>
             (match config_Telemetry config with
              | Some true => sendTelemetry ;; ret tt
              | _ => ret tt
              end) ;;
             setInstance {| AppInfo := appInfo;
                            RecipeModules := recipeModules;
                            OnGeneralError := onGeneralError |} ;;
             ret None
           end
         end
       end
     end) g
  end.

Definition notInitialisedError : error :=
  errors_New "initialisation not done. Did you forget to call the SuperTokens.init function?".

Definition getInstanceOrThrowError (g : Globals)
  : option superTokens * option error :=
  match superTokensInstance g with
  | Some s => (Some s, None)
  | None => (None, Some notInitialisedError)
  end.

(** *** The session-refresh API handler ([recipe/session/refresh.go]) *)

(** Types of [sessmodels] and [supertokens] declared outside the three
    source files: the per-request user context, what [RefreshPOST] returns
    next to its error, and a JSON body. *)
Variable UserContext : Type.
Variable SessionContainer : Type.
Variable JSONBody : Type.

(** [sessmodels.APIOptions], by the fields the handler reads; [Res], the
    response writer, is part of the world. *)
Record APIOptions : Type := {
  Req : Request;
  OtherHandler : Handler
}.

(** [sessmodels.APIInterface]: [RefreshPOST] is a pointer to a function
    value; the pointer and the function may each be nil. *)
Record APIInterface : Type := {
  RefreshPOST :
    option (option (APIOptions → UserContext → World →
                    (option SessionContainer * option error) * World))
}.

Inductive RefreshEvent : Type :=
| EvOtherHandler (req : Request)
| EvRefreshPOST (options : APIOptions) (userContext : UserContext)
    (err : option error)
| EvSend200Response (responseJson : option JSONBody) (err : option error).

Variable MakeDefaultUserContextFromAPI : Request → UserContext.
Variable Send200Response : option JSONBody → World → option error * World.

Definition HandleRefreshAPI (apiImplementation : APIInterface)
    (options : APIOptions) : M (World * list RefreshEvent) (option error) :=
  match RefreshPOST apiImplementation with
  | None | Some None =>
    external (λ w, (tt, OtherHandler options (Req options) w))
      (λ _, EvOtherHandler (Req options)) ;;
    ret None
  | Some (Some refreshPOST) =>
    let userContext := MakeDefaultUserContextFromAPI (Req options) in
    '(_, err) ← external (refreshPOST options userContext)
                  (λ res, EvRefreshPOST options userContext res.2) ;
    match err with
    | Some e => ret (Some e)
    | None =>
      external (Send200Response None) (EvSend200Response None)
    end
  end.

(** *** User queries ([getUsers], [getUserCount]) *)

(** [querier.SendGetRequest(path, params)] with its parameters, what
    [json.Marshal] makes of a response and what [json.Unmarshal] makes of
    it in a [UserPaginationResult]; all outside the three source files. *)
Variable SendGetRequestWith :
  Querier → string → gmap string GoValue → World →
  (gmap string GoValue * option error) * World.
Variable UserPaginationResult : Type.
Variable json_MarshalResponse : gmap string GoValue → string * option error.
Variable json_Unmarshal : string → UserPaginationResult * option error.

(** The calls of the querier, in the order they are made. *)
Inductive QueryEvent : Type :=
| EvGetNewQuerier (rID : string) (err : option error)
| EvSendGetRequest (path : string) (params : gmap string GoValue)
    (err : option error).

(** [strings.Join(elems, sep)] *)
Definition strings_Join (elems : list string) (sep : string) : string :=
  String.concat sep elems.

(** [v.(int)] on a value read from a map; [GoNumber n] is the Go [int]
    [n]. *)
Definition assertInt {S} (v : option GoValue) : M S Z :=
  match v with
  | Some (GoNumber n) => ret n
  | _ => panic InterfaceConversion
  end.

Definition getUsers (timeJoinedOrder : string) (limit : option Z)
    (paginationToken : option string) (includeRecipeIds : option (list string))
  : M (World * list QueryEvent) (option UserPaginationResult * option error) :=
  '(querier, err) ← external (GetNewQuerierInstanceOrThrowError "")
                      (λ res, EvGetNewQuerier "" res.2) ;
  match err with
  | Some e => ret (None, Some e)
  | None =>
    let requestBody : gmap string GoValue :=
      {[ "timeJoinedOrder" := GoString timeJoinedOrder ]} in
    let requestBody :=
      match limit with
      | Some l => <["limit" := GoNumber l]> requestBody
      | None => requestBody
      end in
    let requestBody :=
      match paginationToken with
      | Some t => <["paginationToken" := GoString t]> requestBody
      | None => requestBody
      end in
    let requestBody :=
      match includeRecipeIds with
      | Some ids =>
        <["includeRecipeIds" := GoString (strings_Join ids ",")]> requestBody
      | None => requestBody
      end in
    querier' ← deref querier ;
    '(resp, err) ← external (SendGetRequestWith querier' "/users" requestBody)
                     (λ res, EvSendGetRequest "/users" requestBody res.2) ;
    match err with
    | Some e => ret (None, Some e)
    | None =>
      let '(temporaryVariable, err) := json_MarshalResponse resp in
      match err with
      | Some e => ret (None, Some e)
      | None =>
        let '(result, err) := json_Unmarshal temporaryVariable in
        match err with
        | Some e => ret (None, Some e)
        | None => ret (Some result, None)
        end
      end
    end
  end.

Definition getUserCount (includeRecipeIds : option (list string))
  : M (World * list QueryEvent) (Z * option error) :=
  '(querier, err) ← external (GetNewQuerierInstanceOrThrowError "")
                      (λ res, EvGetNewQuerier "" res.2) ;
  match err with
  | Some e => ret (-1, Some e)
  | None =>
    let requestBody : gmap string GoValue := ∅ in
    let requestBody :=
      match includeRecipeIds with
      | Some ids =>
        <["includeRecipeIds" := GoString (strings_Join ids ",")]> requestBody
      | None => requestBody
      end in
    querier' ← deref querier ;
    '(resp, err) ← external (SendGetRequestWith querier' "/users/count" requestBody)
                     (λ res, EvSendGetRequest "/users/count" requestBody res.2) ;
    match err with
    | Some e => ret (-1, Some e)
    | None =>
      count ← assertInt (resp !! "count") ;
      ret (count, None)
    end
  end.

(** ** The dispatcher as the specification words it *)

(** The error chain for an error that is not a [BadInputError]: from
    position [i], over the modules [recipes], started in world [w], the
    dispatcher makes the calls [tr] and leaves the world [w'].

    - [chain_general]: no module is left, the general error handler gets
      the original error;
    - [chain_no_hook]: a module without [HandleError] is passed over;
    - [chain_handled]: [(handled=true, nil)] stops the chain;
    - [chain_escalate]: a non-nil [err2] stops the chain and the general
      error handler gets [err2];
    - [chain_next]: [(handled=false, nil)] moves on to the next module. *)
Inductive ErrorChain (s : superTokens) (err : error) (req : Request)
  : nat → list RecipeModule → World → list Event → World → Prop :=
| chain_general i w :
    ErrorChain s err req i [] w
      [EvOnGeneralError err] (OnGeneralError s err req w)
| chain_no_hook i m ms w tr w' :
    HandleError m = None →
    ErrorChain s err req (S i) ms w tr w' →
    ErrorChain s err req i (m :: ms) w tr w'
| chain_handled i m ms handleError w w1 :
    HandleError m = Some handleError →
    handleError err req w = ((true, None), w1) →
    ErrorChain s err req i (m :: ms) w
      [EvHandleError i err true None] w1
| chain_escalate i m ms handleError w handled err2 w1 :
    HandleError m = Some handleError →
    handleError err req w = ((handled, Some err2), w1) →
    ErrorChain s err req i (m :: ms) w
      [EvHandleError i err handled (Some err2); EvOnGeneralError err2]
      (OnGeneralError s err2 req w1)
| chain_next i m ms handleError w w1 tr w' :
    HandleError m = Some handleError →
    handleError err req w = ((false, None), w1) →
    ErrorChain s err req (S i) ms w1 tr w' →
    ErrorChain s err req i (m :: ms) w
      (EvHandleError i err false None :: tr) w'.

(** Routing of a request without RID: from position [i], over the modules
    [recipes], started in state [st], the dispatcher ends in [out].

    - [first_claim_fallback]: no module is left, the fallback handler runs;
    - [first_claim_error]: the module's check returns an error, which goes
      to the error chain; the modules after it play no part;
    - [first_claim_handles]: the module's check returns an API id and the
      module handles the request; the modules after it play no part;
    - [first_claim_handle_error]: as before, and the error of
      [HandleAPIRequest] goes to the error chain;
    - [first_claim_declines]: the module's check returns neither, and the
      next module is asked. *)
Inductive FirstClaim (s : superTokens) (theirHandler : Handler) (r : Request)
    (path : NormalisedURLPath) (method : string)
  : nat → list RecipeModule → ReqState → Result unit * ReqState → Prop :=
| first_claim_fallback i w tr :
    FirstClaim s theirHandler r path method i [] (w, tr)
      (Done tt, (theirHandler r w, tr ++ [EvTheirHandler r]))
| first_claim_error i m ms w tr id e w1 :
    ReturnAPIIdIfCanHandleRequest m path method w = ((id, Some e), w1) →
    FirstClaim s theirHandler r path method i (m :: ms) (w, tr)
      (errorHandler s e r
         (w1, tr ++ [EvReturnAPIIdIfCanHandleRequest i path method id (Some e)]))
| first_claim_handles i m ms w tr id w1 w2 :
    ReturnAPIIdIfCanHandleRequest m path method w = ((Some id, None), w1) →
    HandleAPIRequest m id r theirHandler path method w1 = (None, w2) →
    FirstClaim s theirHandler r path method i (m :: ms) (w, tr)
      (Done tt,
       (w2, tr ++ [EvReturnAPIIdIfCanHandleRequest i path method (Some id) None;
                   EvHandleAPIRequest i id path method None]))
| first_claim_handle_error i m ms w tr id w1 e w2 :
    ReturnAPIIdIfCanHandleRequest m path method w = ((Some id, None), w1) →
    HandleAPIRequest m id r theirHandler path method w1 = (Some e, w2) →
    FirstClaim s theirHandler r path method i (m :: ms) (w, tr)
      (errorHandler s e r
         (w2, tr ++ [EvReturnAPIIdIfCanHandleRequest i path method (Some id) None;
                     EvHandleAPIRequest i id path method (Some e)]))
| first_claim_declines i m ms w tr w1 out :
    ReturnAPIIdIfCanHandleRequest m path method w = ((None, None), w1) →
    FirstClaim s theirHandler r path method (S i) ms
      (w1, tr ++ [EvReturnAPIIdIfCanHandleRequest i path method None None]) out →
    FirstClaim s theirHandler r path method i (m :: ms) (w, tr) out.

(** What a log shows of the calls of [ReturnAPIIdIfCanHandleRequest]: the
    position of each module asked and what it answered, in the order of
    the calls. *)
Definition answers (tr : list Event) : list (nat * (option string * option error)) :=
  omap (λ ev, match ev with
              | EvReturnAPIIdIfCanHandleRequest i _ _ id err => Some (i, (id, err))
              | _ => None
              end) tr.

(** Whether a log shows a call of the fallback handler. *)
Definition servedTheirHandler (tr : list Event) : bool :=
  existsb (λ ev, match ev with EvTheirHandler _ => true | _ => false end) tr.

(** The answers of [k] modules in a row, from position [i], that all
    declined. *)
Definition declines (i k : nat) : list (nat * (option string * option error)) :=
  map (λ j, (j, (None, None))) (seq i k).

(** What a log shows of the calls of [HandleAPIRequest]: the position of
    the module and the API id, in the order of the calls. *)
Definition handled (tr : list Event) : list (nat * string) :=
  omap (λ ev, match ev with
              | EvHandleAPIRequest i id _ _ _ => Some (i, id)
              | _ => None
              end) tr.

(** The positions of the modules whose [HandleError] a log shows, in the
    order of the calls. *)
Definition consulted (tr : list Event) : list nat :=
  omap (λ ev, match ev with
              | EvHandleError i _ _ _ => Some i
              | _ => None
              end) tr.

(** A call made by the error chain. *)
Definition inErrorChain (ev : Event) : bool :=
  match ev with
  | EvHandleError _ _ _ _ | EvSendNon200Response _ _ _ | EvOnGeneralError _ => true
  | _ => false
  end.

(** A call that settles an error: the general error handler, a module
    that reports the error handled, or a response written without error. *)
Definition isResponder (ev : Event) : bool :=
  match ev with
  | EvOnGeneralError _
  | EvHandleError _ _ true None
  | EvSendNon200Response _ _ None => true
  | _ => false
  end.

(** A check of a module that declined the request. *)
Definition isDecline (ev : Event) : bool :=
  match ev with
  | EvReturnAPIIdIfCanHandleRequest _ _ _ None None => true
  | _ => false
  end.

(** How a routed request ends, after the checks that declined: with the
    fallback handler; with a check that returned an error and the error
    chain; with the module that claimed the request handling it; or with
    that module's error and the error chain. *)
Inductive RoutingEnd (r : Request) (path : NormalisedURLPath) (method : string)
  : list Event → Prop :=
| end_fallback :
    RoutingEnd r path method [EvTheirHandler r]
| end_check_error i id e evs :
    forallb inErrorChain evs = true →
    RoutingEnd r path method
      (EvReturnAPIIdIfCanHandleRequest i path method id (Some e) :: evs)
| end_handled i id :
    RoutingEnd r path method
      [EvReturnAPIIdIfCanHandleRequest i path method (Some id) None;
       EvHandleAPIRequest i id path method None]
| end_handle_error i id e evs :
    forallb inErrorChain evs = true →
    RoutingEnd r path method
      (EvReturnAPIIdIfCanHandleRequest i path method (Some id) None ::
       EvHandleAPIRequest i id path method (Some e) :: evs).

(** The hosts and the API key [supertokensInit] passes to [initQuerier]:
    none without a [Supertokens] configuration, and otherwise the
    normalised pieces of the connection URI, in their order. *)
Definition querierHosts (config : TypeInput)
    (hosts : list NormalisedURLDomain) (apiKey : option string) : Prop :=
  match config_Supertokens config with
  | None => hosts = [] ∧ apiKey = None
  | Some st =>
    Forall2 (λ h host, NewNormalisedURLDomain h false = (Some host, None))
      (strings_Split (ConnectionURI st) ";"%char) hosts ∧
    apiKey = APIKey st
  end.

(** A computation over the globals that leaves [superTokensInstance] as it
    found it. *)
Definition keepsInstance {A} (m : M Globals A) : Prop :=
  ∀ g, superTokensInstance (m g).2 = superTokensInstance g.

(** ** Properties *)

(** *** Running the monad *)

Lemma external_run {W E A} (f : W → A * W) (ev : A → E) (w : W) (tr : list E) :
  external f ev (w, tr) = (Done (f w).1, ((f w).2, tr ++ [ev (f w).1])).
Proof. unfold external; simpl. destruct (f w); reflexivity. Qed.

Lemma bind_run {S A B} (m : M S A) (k : A → M S B) (st : S) :
  bind m k st = match m st with
                | (Done a, st') => k a st'
                | (Panicked p, st') => (Panicked p, st')
                end.
Proof. reflexivity. Qed.

Lemma callOnGeneralError_run s err req w tr :
  callOnGeneralError s err req (w, tr) =
  (Done tt, (OnGeneralError s err req w, tr ++ [EvOnGeneralError err])).
Proof. reflexivity. Qed.

Lemma serveTheirHandler_run theirHandler r w tr :
  serveTheirHandler theirHandler r (w, tr) =
  (Done tt, (theirHandler r w, tr ++ [EvTheirHandler r])).
Proof. reflexivity. Qed.

(** *** The error chain *)

Lemma errorHandlerLoop_chain s err req recipes :
  ∀ i w tr0,
    ∃ tr w', ErrorChain s err req i recipes w tr w' ∧
             errorHandlerLoop s err req i recipes (w, tr0) = (Done tt, (w', tr0 ++ tr)).
Proof.
  induction recipes as [|m ms IH]; intros i w tr0.
  - exists [EvOnGeneralError err], (OnGeneralError s err req w).
    split; [constructor | reflexivity].
  - cbn [errorHandlerLoop].
    destruct (HandleError m) as [handleError|] eqn:Hhook.
    + rewrite bind_run, external_run.
      destruct (handleError err req w) as [[handled err2] w1] eqn:Hcall.
      cbn [fst snd].
      destruct err2 as [e2|].
      * exists [EvHandleError i err handled (Some e2); EvOnGeneralError e2],
               (OnGeneralError s e2 req w1).
        split; [eapply chain_escalate; eauto|].
        rewrite callOnGeneralError_run, <- app_assoc. reflexivity.
      * destruct handled.
        -- exists [EvHandleError i err true None], w1.
           split; [eapply chain_handled; eauto | reflexivity].
        -- destruct (IH (S i) w1 (tr0 ++ [EvHandleError i err false None]))
             as (tr & w' & Hchain & Hrun).
           exists (EvHandleError i err false None :: tr), w'.
           split; [eapply chain_next; eauto|].
           rewrite Hrun, <- app_assoc. reflexivity.
    + destruct (IH (S i) w tr0) as (tr & w' & Hchain & Hrun).
      exists tr, w'. split; [apply chain_no_hook; assumption | exact Hrun].
Qed.

(** C4. For an error that is not a [BadInputError], [errorHandler] walks
    the modules in registration order as the error chain of the
    specification: a module without [HandleError] is passed over;
    [(handled=true, nil)] ends the chain with no further call; a non-nil
    [err2] ends the chain with the general error handler called on [err2]
    and no later [HandleError]; [(handled=false, nil)] moves to the next
    module; with no module left the general error handler is called on
    the original error.  The handler always returns. *)
Theorem errorHandler_chain s err req w :
  errors_As_BadInputError err = false →
  ∃ tr w', ErrorChain s err req 0 (RecipeModules s) w tr w' ∧
           errorHandler s err req (w, []) = (Done tt, (w', tr)).
Proof.
  intros Hkind. unfold errorHandler. rewrite Hkind.
  destruct (errorHandlerLoop_chain s err req (RecipeModules s) 0%nat w [])
    as (tr & w' & Hchain & Hrun).
  exists tr, w'. split; [exact Hchain | exact Hrun].
Qed.

(** C5. For a [BadInputError], [errorHandler] calls [SendNon200Response]
    with the error's message and status 400 and no module's [HandleError];
    when that call fails, the general error handler is called with the
    original error, and with nothing otherwise. *)
Theorem errorHandler_bad_input s err req w :
  errors_As_BadInputError err = true →
  errorHandler s err req (w, []) =
  match SendNon200Response (Error err) 400 w with
  | (None, w1) =>
      (Done tt, (w1, [EvSendNon200Response (Error err) 400 None]))
  | (Some catcher, w1) =>
      (Done tt, (OnGeneralError s err req w1,
                 [EvSendNon200Response (Error err) 400 (Some catcher);
                  EvOnGeneralError err]))
  end.
Proof.
  intros Hkind. unfold errorHandler. rewrite Hkind.
  rewrite bind_run, external_run.
  destruct (SendNon200Response (Error err) 400 w) as [[catcher|] w1];
    reflexivity.
Qed.

Lemma ErrorChain_deterministic s err req i recipes w tr1 w1 tr2 w2 :
  ErrorChain s err req i recipes w tr1 w1 →
  ErrorChain s err req i recipes w tr2 w2 →
  tr1 = tr2 ∧ w1 = w2.
Proof.
  intros H1; revert tr2 w2.
  induction H1; intros tr2 w2 H2; inversion H2; subst;
    repeat match goal with
           | Ha : ?x = _, Hb : ?x = _ |- _ => rewrite Ha in Hb; simplify_eq
           end;
    try (split; reflexivity); eauto.
  match goal with
  | IH : ∀ tr2 w2, ErrorChain _ _ _ _ _ _ tr2 w2 → _, Hc : ErrorChain _ _ _ _ _ _ _ _ |- _ =>
      destruct (IH _ _ Hc) as [-> ->]
  end.
  split; reflexivity.
Qed.

Lemma answers_app tr1 tr2 : answers (tr1 ++ tr2) = answers tr1 ++ answers tr2.
Proof. apply omap_app. Qed.

Lemma servedTheirHandler_app tr1 tr2 :
  servedTheirHandler (tr1 ++ tr2) = servedTheirHandler tr1 || servedTheirHandler tr2.
Proof. apply existsb_app. Qed.

Lemma ErrorChain_events s err req i recipes w tr w' :
  ErrorChain s err req i recipes w tr w' →
  answers tr = [] ∧ servedTheirHandler tr = false.
Proof. induction 1; auto. Qed.

(** [errorHandler] always returns, and what it adds to the log shows no
    call of [ReturnAPIIdIfCanHandleRequest] and none of the fallback
    handler. *)
Lemma errorHandler_run s err req w tr0 :
  ∃ w' evs, errorHandler s err req (w, tr0) = (Done tt, (w', tr0 ++ evs)) ∧
            answers evs = [] ∧ servedTheirHandler evs = false.
Proof.
  unfold errorHandler. destruct (errors_As_BadInputError err).
  - rewrite bind_run, external_run.
    destruct (SendNon200Response (Error err) 400 w) as [[catcher|] w1];
      cbn [fst snd].
    + rewrite callOnGeneralError_run, <- app_assoc.
      eexists _, _. split; [reflexivity | split; reflexivity].
    + eexists _, _. split; [reflexivity | split; reflexivity].
  - destruct (errorHandlerLoop_chain s err req (RecipeModules s) 0%nat w tr0)
      as (tr & w' & Hchain & Hrun).
    exists w', tr. split; [exact Hrun | eapply ErrorChain_events; eassumption].
Qed.

(** *** Routing *)

(** The part of [middleware] after the path has been normalised and found
    inside the API base path. *)
Lemma middleware_inside s theirHandler r reqURL st :
  NewNormalisedURLPath (URLPath r) = (Some reqURL, None) →
  strings_HasPrefix
    (GetAsStringDangerous (AppendPath (APIGatewayPath (AppInfo s)) reqURL))
    (GetAsStringDangerous (APIBasePath (AppInfo s))) = true →
  middleware s theirHandler r st =
  let path := AppendPath (APIGatewayPath (AppInfo s)) reqURL in
  let method := Method r in
  let requestRID := getRIDFromRequest r in
  if negb (String.eqb requestRID "") then
    match findMatchedRecipe requestRID 0%nat (RecipeModules s) with
    | None => serveTheirHandler theirHandler r st
    | Some (i, matchedRecipe) =>
        bind (callReturnAPIIdIfCanHandleRequest i matchedRecipe path method)
          (λ '(id, err),
             match err with
             | Some e => errorHandler s e r
             | None =>
                 match id with
                 | None => serveTheirHandler theirHandler r
                 | Some id' =>
                     bind (callHandleAPIRequest i matchedRecipe id' r
                             theirHandler path method)
                       (λ apiErr, match apiErr with
                                  | Some e => errorHandler s e r
                                  | None => ret tt
                                  end)
                 end
             end) st
    end
  else scanRecipeModules s theirHandler r path method 0%nat (RecipeModules s) st.
Proof.
  intros Hnorm Hin. unfold middleware. rewrite Hnorm.
  cbn [bind ret deref]. rewrite Hin. cbn [negb].
  destruct (negb (String.eqb (getRIDFromRequest r) "")); [|reflexivity].
  destruct (findMatchedRecipe _ _ _) as [[i matchedRecipe]|]; reflexivity.
Qed.

Lemma scanRecipeModules_first_claim s theirHandler r path method recipes :
  ∀ i w tr,
    FirstClaim s theirHandler r path method i recipes (w, tr)
      (scanRecipeModules s theirHandler r path method i recipes (w, tr)).
Proof.
  induction recipes as [|m ms IH]; intros i w tr.
  - apply first_claim_fallback.
  - cbn [scanRecipeModules]. unfold callReturnAPIIdIfCanHandleRequest.
    rewrite bind_run, external_run.
    destruct (ReturnAPIIdIfCanHandleRequest m path method w)
      as [[id err] w1] eqn:Hask.
    cbn [fst snd].
    destruct err as [e|]; [eapply first_claim_error; eassumption|].
    destruct id as [id|].
    + unfold callHandleAPIRequest. rewrite bind_run, external_run.
      destruct (HandleAPIRequest m id r theirHandler path method w1)
        as [apiErr w2] eqn:Hhandle.
      cbn [fst snd]. rewrite <- app_assoc. cbn [app].
      destruct apiErr as [e|].
      * eapply first_claim_handle_error; eassumption.
      * eapply first_claim_handles; eassumption.
    + eapply first_claim_declines; [eassumption | apply IH].
Qed.

Lemma answers_query i path method id err tr :
  answers (EvReturnAPIIdIfCanHandleRequest i path method id err :: tr) =
  (i, (id, err)) :: answers tr.
Proof. reflexivity. Qed.

Lemma answers_handle i id path method apiErr tr :
  answers (EvHandleAPIRequest i id path method apiErr :: tr) = answers tr.
Proof. reflexivity. Qed.

(** The scan asks the modules in registration order and stops asking at
    the first one that does not decline. *)
Lemma scanRecipeModules_answers s theirHandler r path method recipes :
  ∀ i w tr0,
    ∃ w' evs k last,
      scanRecipeModules s theirHandler r path method i recipes (w, tr0) =
        (Done tt, (w', tr0 ++ evs)) ∧
      answers evs = declines i k ++ last ∧
      ((last = [] ∧ k = length recipes ∧ servedTheirHandler evs = true) ∨
       (∃ id err, last = [((i + k)%nat, (id, err))] ∧ (id, err) ≠ (None, None) ∧
                  (k < length recipes)%nat ∧ servedTheirHandler evs = false)).
Proof.
  induction recipes as [|m ms IH]; intros i w tr0.
  - exists (theirHandler r w), [EvTheirHandler r], 0%nat, [].
    split; [reflexivity|]. split; [reflexivity|]. left. auto.
  - cbn [scanRecipeModules]. unfold callReturnAPIIdIfCanHandleRequest.
    rewrite bind_run, external_run.
    destruct (ReturnAPIIdIfCanHandleRequest m path method w)
      as [[id err] w1] eqn:Hask.
    cbn [fst snd].
    destruct err as [e|].
    { destruct (errorHandler_run s e r w1
                  (tr0 ++ [EvReturnAPIIdIfCanHandleRequest i path method id (Some e)]))
        as (w' & evs & Hrun & Hans & Hserved).
      exists w', (EvReturnAPIIdIfCanHandleRequest i path method id (Some e) :: evs),
             0%nat, [(i, (id, Some e))].
      split; [rewrite Hrun, <- app_assoc; reflexivity|].
      split; [rewrite answers_query, Hans; reflexivity|].
      right. exists id, (Some e). rewrite Nat.add_0_r.
      repeat split; [congruence | cbn; lia | exact Hserved]. }
    destruct id as [id|].
    + unfold callHandleAPIRequest. rewrite bind_run, external_run.
      destruct (HandleAPIRequest m id r theirHandler path method w1)
        as [apiErr w2] eqn:Hhandle.
      cbn [fst snd]. rewrite <- app_assoc. cbn [app].
      assert (∃ w' evs,
                 match apiErr with
                 | Some e => errorHandler s e r
                 | None => ret tt
                 end (w2, tr0 ++ [EvReturnAPIIdIfCanHandleRequest i path method (Some id) None;
                                  EvHandleAPIRequest i id path method apiErr]) =
                 (Done tt, (w', (tr0 ++ [EvReturnAPIIdIfCanHandleRequest i path method (Some id) None;
                                  EvHandleAPIRequest i id path method apiErr]) ++ evs)) ∧
                 answers evs = [] ∧ servedTheirHandler evs = false)
        as (w' & evs & Hrun & Hans & Hserved).
      { destruct apiErr as [e|]; [apply errorHandler_run|].
        exists w2, []. rewrite app_nil_r. auto. }
      exists w', (EvReturnAPIIdIfCanHandleRequest i path method (Some id) None ::
                  EvHandleAPIRequest i id path method apiErr :: evs),
             0%nat, [(i, (Some id, None))].
      split; [rewrite Hrun, <- app_assoc; reflexivity|].
      split; [rewrite answers_query, answers_handle, Hans; reflexivity|].
      right. exists (Some id), None. rewrite Nat.add_0_r.
      repeat split; [congruence | cbn; lia | exact Hserved].
    + destruct (IH (S i) w1
                  (tr0 ++ [EvReturnAPIIdIfCanHandleRequest i path method None None]))
        as (w' & evs & k & last & Hrun & Hans & Hlast).
      exists w', (EvReturnAPIIdIfCanHandleRequest i path method None None :: evs),
             (S k), last.
      split; [rewrite Hrun, <- app_assoc; reflexivity|].
      split; [rewrite answers_query, Hans; reflexivity|].
      destruct Hlast as [(-> & -> & Hserved) | (id & err & -> & Hne & Hlt & Hserved)].
      * left. auto.
      * right. exists id, err. rewrite Nat.add_succ_r.
        repeat split; [exact Hne | cbn; lia | exact Hserved].
Qed.

(** C1. A request inside the API base path without RID is routed as the
    specification's first-claim scan over the modules in registration
    order: the first module whose check answers an API id handles the
    request, an error of a check or of [HandleAPIRequest] goes to the
    error chain, and the fallback handler runs when every module
    declines.  The handler returns, and its log shows the checks of the
    modules at positions [0 .. k-1], all declining, followed by at most
    one more check, of the module at position [k], that did not decline:
    no module after that one is asked, and the fallback handler is called
    exactly when all modules declined. *)
Theorem middleware_without_rid s theirHandler r reqURL w :
  NewNormalisedURLPath (URLPath r) = (Some reqURL, None) →
  strings_HasPrefix
    (GetAsStringDangerous (AppendPath (APIGatewayPath (AppInfo s)) reqURL))
    (GetAsStringDangerous (APIBasePath (AppInfo s))) = true →
  getRIDFromRequest r = "" →
  FirstClaim s theirHandler r
    (AppendPath (APIGatewayPath (AppInfo s)) reqURL) (Method r)
    0 (RecipeModules s) (w, []) (middleware s theirHandler r (w, [])) ∧
  ∃ w' tr k last,
    middleware s theirHandler r (w, []) = (Done tt, (w', tr)) ∧
    answers tr = declines 0 k ++ last ∧
    ((last = [] ∧ k = length (RecipeModules s) ∧ servedTheirHandler tr = true) ∨
     (∃ id err, last = [(k, (id, err))] ∧ (id, err) ≠ (None, None) ∧
                (k < length (RecipeModules s))%nat ∧
                servedTheirHandler tr = false)).
Proof.
  intros Hnorm Hin Hrid.
  rewrite (middleware_inside _ _ _ _ _ Hnorm Hin). cbv zeta.
  rewrite Hrid. cbn [String.eqb negb].
  split; [apply scanRecipeModules_first_claim|].
  destruct (scanRecipeModules_answers s theirHandler r
              (AppendPath (APIGatewayPath (AppInfo s)) reqURL) (Method r)
              (RecipeModules s) 0%nat w [])
    as (w' & evs & k & last & Hrun & Hans & Hlast).
  exists w', evs, k, last. auto.
Qed.

Lemma findMatchedRecipe_none requestRID recipes :
  ∀ i, (∀ m, m ∈ recipes → GetRecipeID m ≠ requestRID) →
       findMatchedRecipe requestRID i recipes = None.
Proof.
  induction recipes as [|m ms IH]; intros i Hnone; [reflexivity|].
  cbn [findMatchedRecipe].
  destruct (String.eqb_spec (GetRecipeID m) requestRID) as [Heq|_].
  - exfalso. apply (Hnone m); [left | exact Heq].
  - apply IH. intros m' Hin. apply Hnone. right. exact Hin.
Qed.

Lemma findMatchedRecipe_first requestRID pre m post :
  ∀ i, (∀ m', m' ∈ pre → GetRecipeID m' ≠ requestRID) →
       GetRecipeID m = requestRID →
       findMatchedRecipe requestRID i (pre ++ m :: post) =
       Some ((i + length pre)%nat, m).
Proof.
  induction pre as [|m0 pre IH]; intros i Hpre Hm; cbn [app findMatchedRecipe length].
  - rewrite Hm, String.eqb_refl, Nat.add_0_r. reflexivity.
  - destruct (String.eqb_spec (GetRecipeID m0) requestRID) as [Heq|_].
    + exfalso. apply (Hpre m0); [left | exact Heq].
    + rewrite IH; [f_equal; f_equal; lia | | exact Hm].
      intros m' Hin. apply Hpre. right. exact Hin.
Qed.

(** C2. A request inside the API base path with a RID: when no module has
    that recipe id the fallback handler runs and nothing else is called;
    otherwise the first module with that id is the only one whose check
    is called; an error of the check goes to the error chain, no API id
    makes the fallback handler run, and with an API id
    [HandleAPIRequest] of that same module is called with it, its error
    going to the error chain.  The handler returns in every case. *)
Theorem middleware_with_rid s theirHandler r reqURL w :
  NewNormalisedURLPath (URLPath r) = (Some reqURL, None) →
  strings_HasPrefix
    (GetAsStringDangerous (AppendPath (APIGatewayPath (AppInfo s)) reqURL))
    (GetAsStringDangerous (APIBasePath (AppInfo s))) = true →
  getRIDFromRequest r ≠ "" →
  let path := AppendPath (APIGatewayPath (AppInfo s)) reqURL in
  let method := Method r in
  ((∀ m, m ∈ RecipeModules s → GetRecipeID m ≠ getRIDFromRequest r) →
   middleware s theirHandler r (w, []) =
   (Done tt, (theirHandler r w, [EvTheirHandler r]))) ∧
  (∀ pre m post id err w1,
     RecipeModules s = pre ++ m :: post →
     (∀ m', m' ∈ pre → GetRecipeID m' ≠ getRIDFromRequest r) →
     GetRecipeID m = getRIDFromRequest r →
     ReturnAPIIdIfCanHandleRequest m path method w = ((id, err), w1) →
     let i := length pre in
     let asked := EvReturnAPIIdIfCanHandleRequest i path method id err in
     ∃ w' tr,
       middleware s theirHandler r (w, []) = (Done tt, (w', tr)) ∧
       answers tr = [(i, (id, err))] ∧
       match err, id with
       | Some e, _ =>
           middleware s theirHandler r (w, []) = errorHandler s e r (w1, [asked]) ∧
           servedTheirHandler tr = false
       | None, None =>
           (w', tr) = (theirHandler r w1, [asked; EvTheirHandler r])
       | None, Some id' =>
           match HandleAPIRequest m id' r theirHandler path method w1 with
           | (None, w2) =>
               (w', tr) = (w2, [asked; EvHandleAPIRequest i id' path method None])
           | (Some e, w2) =>
               middleware s theirHandler r (w, []) =
               errorHandler s e r
                 (w2, [asked; EvHandleAPIRequest i id' path method (Some e)]) ∧
               servedTheirHandler tr = false
           end
       end).
Proof.
  intros Hnorm Hin Hrid path method.
  rewrite (middleware_inside _ _ _ _ _ Hnorm Hin). cbv zeta.
  fold path. fold method.
  destruct (String.eqb_spec (getRIDFromRequest r) "") as [Hempty|_];
    [contradiction|].
  cbn [negb]. split.
  - intros Hnone. rewrite (findMatchedRecipe_none _ _ 0%nat Hnone). reflexivity.
  - intros pre m post id err w1 Hmods Hpre Hm Hask.
    set (i := length pre).
    set (asked := EvReturnAPIIdIfCanHandleRequest i path method id err).
    rewrite Hmods, (findMatchedRecipe_first _ _ _ _ 0%nat Hpre Hm).
    cbn [Nat.add]. fold i.
    unfold callReturnAPIIdIfCanHandleRequest.
    rewrite bind_run, external_run, Hask. cbn [fst snd app]. fold asked.
    destruct err as [e|].
    + destruct (errorHandler_run s e r w1 [asked]) as (w' & evs & Hrun & Hans & Hserved).
      exists w', ([asked] ++ evs). rewrite Hrun.
      split; [reflexivity|]. split; [|split; [reflexivity|]].
      * rewrite answers_app, Hans. reflexivity.
      * rewrite servedTheirHandler_app, Hserved. reflexivity.
    + destruct id as [id'|].
      * unfold callHandleAPIRequest. rewrite bind_run, external_run.
        destruct (HandleAPIRequest m id' r theirHandler path method w1)
          as [[e|] w2]; cbn [fst snd app].
        -- destruct (errorHandler_run s e r w2
                       [asked; EvHandleAPIRequest i id' path method (Some e)])
             as (w' & evs & Hrun & Hans & Hserved).
           exists w', ([asked; EvHandleAPIRequest i id' path method (Some e)] ++ evs).
           rewrite Hrun.
           split; [reflexivity|]. split; [|split; [reflexivity|]].
           ++ rewrite answers_app, Hans. reflexivity.
           ++ rewrite servedTheirHandler_app, Hserved. reflexivity.
        -- eexists _, _. split; [reflexivity|]. split; reflexivity.
      * eexists _, _. split; [reflexivity|]. split; reflexivity.
Qed.

(** C6. When the normalised path, prefixed with the API gateway path, does
    not start with the API base path, [middleware] calls the fallback
    handler and returns; the log shows no call of any recipe module. *)
Theorem middleware_outside_base_path s theirHandler r reqURL w :
  NewNormalisedURLPath (URLPath r) = (Some reqURL, None) →
  strings_HasPrefix
    (GetAsStringDangerous (AppendPath (APIGatewayPath (AppInfo s)) reqURL))
    (GetAsStringDangerous (APIBasePath (AppInfo s))) = false →
  middleware s theirHandler r (w, []) =
  (Done tt, (theirHandler r w, [EvTheirHandler r])).
Proof.
  intros Hnorm Hout. unfold middleware. rewrite Hnorm.
  cbn [bind ret deref]. rewrite Hout. reflexivity.
Qed.

(** With a non-nil normalised path, [middleware] returns. *)
Lemma middleware_returns s theirHandler r reqURL st :
  fst (NewNormalisedURLPath (URLPath r)) = Some reqURL →
  fst (middleware s theirHandler r st) = Done tt.
Proof.
  intros Hnorm. unfold middleware.
  destruct (NewNormalisedURLPath (URLPath r)) as [reqURL' err].
  cbn [fst] in Hnorm. subst reqURL'.
  rewrite bind_run.
  assert (∃ st', match err with
                 | Some e => errorHandler s e r
                 | None => ret tt
                 end st = (Done tt, st')) as [[w tr] ->].
  { destruct st as [w tr]. destruct err as [e|]; [|eexists; reflexivity].
    destruct (errorHandler_run s e r w tr) as (w' & evs & -> & _).
    eexists; reflexivity. }
  cbn [bind ret deref].
  destruct (negb (strings_HasPrefix _ _)); [reflexivity|].
  destruct (negb (String.eqb _ _)).
  - destruct (findMatchedRecipe _ _ _) as [[i m]|]; [|reflexivity].
    unfold callReturnAPIIdIfCanHandleRequest. rewrite bind_run, external_run.
    destruct (ReturnAPIIdIfCanHandleRequest m _ _ w) as [[id [e|]] w1];
      cbn [fst snd].
    + destruct (errorHandler_run s e r w1
                  (tr ++ [EvReturnAPIIdIfCanHandleRequest i
                            (AppendPath (APIGatewayPath (AppInfo s)) reqURL)
                            (Method r) id (Some e)]))
        as (w' & evs & -> & _).
      reflexivity.
    + destruct id as [id'|]; [|reflexivity].
      unfold callHandleAPIRequest. rewrite bind_run, external_run.
      destruct (HandleAPIRequest m id' r theirHandler _ _ w1) as [[e|] w2];
        cbn [fst snd]; [|reflexivity].
      match goal with
      | |- (errorHandler s e r (w2, ?t)).1 = _ =>
          destruct (errorHandler_run s e r w2 t) as (w' & evs & -> & _)
      end.
      reflexivity.
  - match goal with
    | |- (scanRecipeModules s theirHandler r ?p ?m' 0%nat ?ms (w, tr)).1 = _ =>
        destruct (scanRecipeModules_answers s theirHandler r p m' ms 0%nat w tr)
          as (w' & evs & k & last & -> & _)
    end.
    reflexivity.
Qed.

(** C9. When the normalisation of the path fails (nil pointer, non-nil
    error), [middleware] calls [errorHandler], which returns, and then
    goes on instead of returning: it dereferences the nil pointer and
    panics.  The handler returns exactly when the normalised-path pointer
    is not nil, so the dereference is safe only where the normalisation
    does not fail. *)
Theorem middleware_failed_normalisation s theirHandler r st :
  (∀ e, NewNormalisedURLPath (URLPath r) = (None, Some e) →
        fst (errorHandler s e r st) = Done tt ∧
        middleware s theirHandler r st =
        (Panicked NilPointerDereference, snd (errorHandler s e r st))) ∧
  (fst (middleware s theirHandler r st) = Done tt ↔
   fst (NewNormalisedURLPath (URLPath r)) ≠ None).
Proof.
  split.
  - intros e Hnorm. destruct st as [w tr].
    destruct (errorHandler_run s e r w tr) as (w' & evs & Hrun & _).
    unfold middleware. rewrite Hnorm, bind_run, Hrun. split; reflexivity.
  - split.
    + intros Hret Hnil. unfold middleware in Hret.
      destruct (NewNormalisedURLPath (URLPath r)) as [reqURL err].
      cbn [fst] in Hnil. subst reqURL.
      rewrite bind_run in Hret.
      destruct (match err with
                | Some e => errorHandler s e r
                | None => ret tt
                end st) as [[[]|p] st']; cbn in Hret; discriminate.
    + intros Hsome.
      destruct (fst (NewNormalisedURLPath (URLPath r))) as [reqURL|] eqn:Hnorm;
        [|contradiction].
      eapply middleware_returns; eassumption.
Qed.

(** *** CORS headers *)

Lemma foldl_snoc {A} (l acc : list A) :
  foldl (λ headers header, headers ++ [header]) acc l = acc ++ l.
Proof.
  revert acc. induction l as [|x l IH]; intros acc; cbn [foldl].
  - rewrite app_nil_r. reflexivity.
  - rewrite IH, <- app_assoc. reflexivity.
Qed.

Lemma elem_of_keys (m : gmap string bool) (h : string) :
  h ∈ (map_to_list m).*1 ↔ is_Some (m !! h).
Proof.
  rewrite list_elem_of_fmap. split.
  - intros ([k v] & -> & Hin). apply elem_of_map_to_list in Hin. eauto.
  - intros [v Hv]. exists (h, v).
    split; [reflexivity | apply elem_of_map_to_list; exact Hv].
Qed.

Lemma insertHeaders_lookup (headers : list string) :
  ∀ (headerMap : gmap string bool) (h : string),
    is_Some (foldl (λ headerMap header, <[header := true]> headerMap)
               headerMap headers !! h) ↔
    is_Some (headerMap !! h) ∨ h ∈ headers.
Proof.
  induction headers as [|x headers IH]; intros headerMap h; cbn [foldl].
  - rewrite elem_of_nil. split; [intros H; left; exact H | intros [H|[]]; exact H].
  - rewrite IH, lookup_insert_is_Some', elem_of_cons. split.
    + intros [[->|H]|H]; auto.
    + intros [H|[->|H]]; auto.
Qed.

Lemma insertRecipeHeaders_lookup (recipes : list RecipeModule) :
  ∀ (headerMap : gmap string bool) (h : string),
    is_Some (foldl (λ headerMap recipe,
                      foldl (λ headerMap header, <[header := true]> headerMap)
                        headerMap (GetAllCORSHeaders recipe))
               headerMap recipes !! h) ↔
    is_Some (headerMap !! h) ∨
    ∃ m, m ∈ recipes ∧ h ∈ GetAllCORSHeaders m.
Proof.
  induction recipes as [|m recipes IH]; intros headerMap h; cbn [foldl].
  - split; [auto | intros [H|(m & Hm & _)]; [exact H | inversion Hm]].
  - rewrite IH, insertHeaders_lookup. split.
    + intros [[H|H]|(m' & Hm' & Hh)]; [auto | right | right].
      * exists m. split; [left | exact H].
      * exists m'. split; [right; exact Hm' | exact Hh].
    + intros [H|(m' & Hm' & Hh)]; [auto|].
      apply elem_of_cons in Hm' as [->|Hm']; [auto|].
      right. exists m'. auto.
Qed.

(** C8. Whatever the order in which Go visits the keys of the map,
    [getAllCORSHeaders] returns a list without duplicates that contains
    the RID header and the FDI version header, and whose elements are
    exactly those two and the headers the registered modules declare. *)
Theorem getAllCORSHeaders_union s :
  (∀ m : gmap string bool, rangeKeys m ≡ₚ (map_to_list m).*1) →
  NoDup (getAllCORSHeaders s) ∧
  HeaderRID ∈ getAllCORSHeaders s ∧
  HeaderFDI ∈ getAllCORSHeaders s ∧
  ∀ h, h ∈ getAllCORSHeaders s ↔
       h = HeaderRID ∨ h = HeaderFDI ∨
       ∃ m, m ∈ RecipeModules s ∧ h ∈ GetAllCORSHeaders m.
Proof.
  intros Horder.
  assert (Hall : ∀ h, h ∈ getAllCORSHeaders s ↔
                      h = HeaderRID ∨ h = HeaderFDI ∨
                      ∃ m, m ∈ RecipeModules s ∧ h ∈ GetAllCORSHeaders m).
  { intros h. unfold getAllCORSHeaders. cbv zeta.
    rewrite foldl_snoc, app_nil_l, Horder.
    rewrite elem_of_keys.
    rewrite insertRecipeHeaders_lookup, !lookup_insert_is_Some', lookup_empty.
    split.
    - intros [[->|[->|H]]|H]; auto. destruct H as [? H]; discriminate.
    - intros [->|[->|H]]; auto. }
  split; [|split; [|split]].
  - unfold getAllCORSHeaders. cbv zeta.
    rewrite foldl_snoc, app_nil_l, Horder. apply NoDup_fst_map_to_list.
  - apply Hall. auto.
  - apply Hall. auto.
  - exact Hall.
Qed.

(** *** The session-refresh handler *)

(** C7. [HandleRefreshAPI]: without an implementation of [RefreshPOST]
    (nil pointer or nil function) the handler calls the fallback handler
    on the request and returns nil.  With an implementation, it calls it
    with the options and the user context made from the request; an
    error it returns is returned unchanged and nothing is written;
    without an error, [Send200Response] is called with a nil body and
    its result is returned. *)
Theorem HandleRefreshAPI_contract apiImplementation options w :
  (RefreshPOST apiImplementation = None ∨
   RefreshPOST apiImplementation = Some None →
   HandleRefreshAPI apiImplementation options (w, []) =
   (Done None,
    (OtherHandler options (Req options) w, [EvOtherHandler (Req options)]))) ∧
  (∀ refreshPOST,
     RefreshPOST apiImplementation = Some (Some refreshPOST) →
     let userContext := MakeDefaultUserContextFromAPI (Req options) in
     match refreshPOST options userContext w with
     | ((_, Some e), w1) =>
         HandleRefreshAPI apiImplementation options (w, []) =
         (Done (Some e), (w1, [EvRefreshPOST options userContext (Some e)]))
     | ((_, None), w1) =>
         HandleRefreshAPI apiImplementation options (w, []) =
         (Done (Send200Response None w1).1,
          ((Send200Response None w1).2,
           [EvRefreshPOST options userContext None;
            EvSend200Response None (Send200Response None w1).1]))
     end).
Proof.
  split.
  - intros [Hnil|Hnil]; unfold HandleRefreshAPI; rewrite Hnil; reflexivity.
  - intros refreshPOST Himpl userContext.
    unfold HandleRefreshAPI. rewrite Himpl. fold userContext.
    rewrite bind_run, external_run.
    destruct (refreshPOST options userContext w) as [[session [e|]] w1];
      cbn [fst snd app]; [reflexivity|].
    rewrite external_run. reflexivity.
Qed.

(** *** Initialisation *)

Lemma keepsInstance_ret {A} (a : A) : keepsInstance (ret a).
Proof. intros g. reflexivity. Qed.

Lemma keepsInstance_panic {A} (p : Panic) : keepsInstance (@panic Globals A p).
Proof. intros g. reflexivity. Qed.

Lemma keepsInstance_deref {A} (p : option A) : keepsInstance (deref p).
Proof. destruct p; intros g; reflexivity. Qed.

Lemma keepsInstance_liftWorld {A} (f : World → A * World) :
  keepsInstance (liftWorld f).
Proof. intros g. unfold liftWorld. destruct (f (world g)). reflexivity. Qed.

Lemma keepsInstance_assertBool v : keepsInstance (assertBool v).
Proof. destruct v as [[]|]; intros g; reflexivity. Qed.

Lemma keepsInstance_assertString v : keepsInstance (assertString v).
Proof. destruct v as [[]|]; intros g; reflexivity. Qed.

Lemma keepsInstance_bind {A B} (m : M Globals A) (k : A → M Globals B) :
  keepsInstance m → (∀ a, keepsInstance (k a)) → keepsInstance (bind m k).
Proof.
  intros Hm Hk g. rewrite bind_run. specialize (Hm g).
  destruct (m g) as [[a|p] g1]; cbn [snd] in *; [|exact Hm].
  rewrite Hk. exact Hm.
Qed.

Ltac keeps_instance :=
  repeat first
    [ apply keepsInstance_ret
    | apply keepsInstance_panic
    | apply keepsInstance_deref
    | apply keepsInstance_liftWorld
    | apply keepsInstance_assertBool
    | apply keepsInstance_assertString
    | apply keepsInstance_bind; [|intros ?]
    | match goal with
      | |- keepsInstance (match ?x with _ => _ end) => destruct x
      end ].

Lemma keepsInstance_sendTelemetry : keepsInstance sendTelemetry.
Proof.
  unfold sendTelemetry. keeps_instance.
  intros globals. destruct (superTokensInstance globals) eqn:Hinst; exact Hinst.
Qed.

Lemma keepsInstance_normaliseHosts hostList :
  ∀ hosts, keepsInstance (normaliseHosts hostList hosts).
Proof.
  induction hostList as [|h rest IH]; intros hosts; cbn [normaliseHosts];
    keeps_instance. apply IH.
Qed.

Lemma keepsInstance_buildRecipeModules appInfo recipeList :
  ∀ recipeModules,
    keepsInstance (buildRecipeModules appInfo recipeList recipeModules).
Proof.
  induction recipeList as [|elem rest IH]; intros recipeModules;
    cbn [buildRecipeModules]; keeps_instance. apply IH.
Qed.





(** *** More on the error chain *)

Lemma ErrorChain_responder s err req i recipes w tr w' :
  ErrorChain s err req i recipes w tr w' →
  ∃ tr0 ev, tr = tr0 ++ [ev] ∧ isResponder ev = true ∧
            forallb (λ e, inErrorChain e && negb (isResponder e)) tr0 = true.
Proof.
  induction 1 as [i w | i m ms w tr w' Hhook _ IH | i m ms f w w1 Hhook Hcall
                 | i m ms f w handled err2 w1 Hhook Hcall
                 | i m ms f w w1 tr w' Hhook Hcall _ IH].
  - exists [], (EvOnGeneralError err). auto.
  - exact IH.
  - exists [], (EvHandleError i err true None). auto.
  - exists [EvHandleError i err handled (Some err2)], (EvOnGeneralError err2).
    split; [reflexivity|]. split; [reflexivity|]. destruct handled; reflexivity.
  - destruct IH as (tr0 & ev & -> & Hev & Htr0).
    exists (EvHandleError i err false None :: tr0), ev.
    split; [reflexivity|]. split; [exact Hev|]. cbn. exact Htr0.
Qed.

Lemma ErrorChain_consulted s err req i recipes w tr w' :
  ErrorChain s err req i recipes w tr w' →
  sublist (consulted tr) (seq i (length recipes)).
Proof.
  induction 1; cbn [length seq].
  - apply sublist_nil_l.
  - apply sublist_cons. assumption.
  - apply sublist_skip, sublist_nil_l.
  - apply sublist_skip, sublist_nil_l.
  - apply (sublist_skip i). assumption.
Qed.

Lemma ErrorChain_hooks s err req i recipes w tr w' :
  ErrorChain s err req i recipes w tr w' →
  ∀ pre j, length pre = i → j ∈ consulted tr →
           ∃ m handleError, (pre ++ recipes) !! j = Some m ∧
                            HandleError m = Some handleError.
Proof.
  induction 1 as [i w | i m ms w tr w' Hhook _ IH | i m ms f w w1 Hhook Hcall
                 | i m ms f w handled err2 w1 Hhook Hcall
                 | i m ms f w w1 tr w' Hhook Hcall _ IH];
    intros pre j Hlen Hj.
  - inversion Hj.
  - rewrite (cons_middle m pre ms), app_assoc. apply IH; [|exact Hj].
    rewrite length_app, Hlen. cbn. lia.
  - apply list_elem_of_singleton in Hj as ->. exists m, f.
    split; [|exact Hhook]. rewrite <- Hlen. apply list_lookup_middle. reflexivity.
  - apply list_elem_of_singleton in Hj as ->. exists m, f.
    split; [|exact Hhook]. rewrite <- Hlen. apply list_lookup_middle. reflexivity.
  - apply elem_of_cons in Hj as [->|Hj].
    + exists m, f.
      split; [|exact Hhook]. rewrite <- Hlen. apply list_lookup_middle. reflexivity.
    + rewrite (cons_middle m pre ms), app_assoc. apply IH; [|exact Hj].
      rewrite length_app, Hlen. cbn. lia.
Qed.

(** X1. [errorHandler] always returns, and exactly one call settles the
    error, the last one: the general error handler, a module reporting
    the error handled, or the 400 response written without error.
    Every call before it is a call of the error chain that settled
    nothing. *)
Theorem errorHandler_one_responder s err req w :
  ∃ w' tr0 ev,
    errorHandler s err req (w, []) = (Done tt, (w', tr0 ++ [ev])) ∧
    isResponder ev = true ∧
    forallb (λ e, inErrorChain e && negb (isResponder e)) tr0 = true.
Proof.
  unfold errorHandler. destruct (errors_As_BadInputError err).
  - rewrite bind_run, external_run.
    destruct (SendNon200Response (Error err) 400 w) as [[catcher|] w1];
      cbn [fst snd app].
    + exists (OnGeneralError s err req w1),
             [EvSendNon200Response (Error err) 400 (Some catcher)],
             (EvOnGeneralError err).
      split; [reflexivity | split; reflexivity].
    + exists w1, [], (EvSendNon200Response (Error err) 400 None).
      split; [reflexivity | split; reflexivity].
  - destruct (errorHandlerLoop_chain s err req (RecipeModules s) 0%nat w [])
      as (tr & w' & Hchain & Hrun).
    destruct (ErrorChain_responder _ _ _ _ _ _ _ _ Hchain)
      as (tr0 & ev & -> & Hev & Htr0).
    exists w', tr0, ev. split; [exact Hrun | split; assumption].
Qed.

(** X2. The modules whose [HandleError] the error chain calls are called
    in registration order, each at most once, and each of them has a
    [HandleError]. *)
Theorem errorHandler_consults_hooks_in_order s err req w :
  ∃ w' tr,
    errorHandler s err req (w, []) = (Done tt, (w', tr)) ∧
    sublist (consulted tr) (seq 0 (length (RecipeModules s))) ∧
    ∀ j, j ∈ consulted tr →
         ∃ m handleError, RecipeModules s !! j = Some m ∧
                          HandleError m = Some handleError.
Proof.
  unfold errorHandler. destruct (errors_As_BadInputError err).
  - rewrite bind_run, external_run.
    destruct (SendNon200Response (Error err) 400 w) as [[catcher|] w1];
      cbn [fst snd app]; eexists _, _;
      (split; [reflexivity|]); (split; [apply sublist_nil_l|]);
      intros j Hj; inversion Hj.
  - destruct (errorHandlerLoop_chain s err req (RecipeModules s) 0%nat w [])
      as (tr & w' & Hchain & Hrun).
    exists w', tr. split; [exact Hrun|]. split.
    + eapply ErrorChain_consulted; eassumption.
    + intros j Hj.
      exact (ErrorChain_hooks _ _ _ _ _ _ _ _ Hchain [] j eq_refl Hj).
Qed.

Lemma errorHandlerLoop_without_hooks s err req recipes :
  Forall (λ m, HandleError m = None) recipes →
  ∀ i st, errorHandlerLoop s err req i recipes st = callOnGeneralError s err req st.
Proof.
  induction 1 as [|m ms Hm _ IH]; intros i st; cbn [errorHandlerLoop];
    [reflexivity|].
  rewrite Hm. apply IH.
Qed.

(** X3. When no registered module has a [HandleError] (and when no module
    is registered), an error that is not a [BadInputError] goes straight
    to the general error handler, as it is. *)
Theorem errorHandler_without_hooks s err req w :
  Forall (λ m, HandleError m = None) (RecipeModules s) →
  errors_As_BadInputError err = false →
  errorHandler s err req (w, []) =
  (Done tt, (OnGeneralError s err req w, [EvOnGeneralError err])).
Proof.
  intros Hnone Hkind. unfold errorHandler. rewrite Hkind.
  rewrite (errorHandlerLoop_without_hooks _ _ _ _ Hnone). reflexivity.
Qed.

(** *** More on routing *)

Lemma ErrorChain_inErrorChain s err req i recipes w tr w' :
  ErrorChain s err req i recipes w tr w' → forallb inErrorChain tr = true.
Proof. induction 1; auto. Qed.

Lemma errorHandler_events s err req w tr0 :
  ∃ w' evs, errorHandler s err req (w, tr0) = (Done tt, (w', tr0 ++ evs)) ∧
            forallb inErrorChain evs = true.
Proof.
  unfold errorHandler. destruct (errors_As_BadInputError err).
  - rewrite bind_run, external_run.
    destruct (SendNon200Response (Error err) 400 w) as [[catcher|] w1];
      cbn [fst snd].
    + rewrite callOnGeneralError_run, <- app_assoc.
      eexists _, _. split; reflexivity.
    + eexists _, _. split; reflexivity.
  - destruct (errorHandlerLoop_chain s err req (RecipeModules s) 0%nat w tr0)
      as (tr & w' & Hchain & Hrun).
    exists w', tr. split; [exact Hrun | eapply ErrorChain_inErrorChain; eassumption].
Qed.

(** What follows a check that did not decline. *)
Lemma claimed_end s theirHandler r path method i m id err w1 tr0 :
  (id, err) ≠ (None, None) →
  ∃ w' rest,
    match err with
    | Some e => errorHandler s e r
    | None =>
        match id with
        | Some id' =>
            bind (callHandleAPIRequest i m id' r theirHandler path method)
              (λ apiErr, match apiErr with
                         | Some e => errorHandler s e r
                         | None => ret tt
                         end)
        | None => ret tt
        end
    end (w1, tr0 ++ [EvReturnAPIIdIfCanHandleRequest i path method id err]) =
    (Done tt, (w', tr0 ++ rest)) ∧
    RoutingEnd r path method rest.
Proof.
  intros Hclaim. destruct err as [e|].
  - destruct (errorHandler_events s e r w1
                (tr0 ++ [EvReturnAPIIdIfCanHandleRequest i path method id (Some e)]))
      as (w' & evs & -> & Hevs).
    exists w', (EvReturnAPIIdIfCanHandleRequest i path method id (Some e) :: evs).
    split; [rewrite <- app_assoc; reflexivity | constructor; exact Hevs].
  - destruct id as [id'|]; [|congruence].
    unfold callHandleAPIRequest. rewrite bind_run, external_run.
    destruct (HandleAPIRequest m id' r theirHandler path method w1)
      as [[e|] w2]; cbn [fst snd]; rewrite <- app_assoc; cbn [app].
    + destruct (errorHandler_events s e r w2
                  (tr0 ++ [EvReturnAPIIdIfCanHandleRequest i path method (Some id') None;
                           EvHandleAPIRequest i id' path method (Some e)]))
        as (w' & evs & -> & Hevs).
      eexists w', (_ :: _ :: evs).
      split; [rewrite <- app_assoc; reflexivity | constructor; exact Hevs].
    + eexists w2, _. split; [reflexivity | constructor].
Qed.

Lemma scanRecipeModules_shape s theirHandler r path method recipes :
  ∀ i w tr0,
    ∃ w' checks rest,
      scanRecipeModules s theirHandler r path method i recipes (w, tr0) =
        (Done tt, (w', tr0 ++ checks ++ rest)) ∧
      forallb isDecline checks = true ∧
      RoutingEnd r path method rest.
Proof.
  induction recipes as [|m ms IH]; intros i w tr0.
  - exists (theirHandler r w), [], [EvTheirHandler r].
    split; [reflexivity | split; [reflexivity | constructor]].
  - cbn [scanRecipeModules]. unfold callReturnAPIIdIfCanHandleRequest.
    rewrite bind_run, external_run.
    destruct (ReturnAPIIdIfCanHandleRequest m path method w)
      as [[id err] w1] eqn:Hask.
    cbn [fst snd].
    destruct err as [e|]; [|destruct id as [id'|]].
    + destruct (claimed_end s theirHandler r path method i m id (Some e) w1 tr0)
        as (w' & rest & Hrun & Hend); [congruence|].
      exists w', [], rest. split; [exact Hrun | split; [reflexivity | exact Hend]].
    + destruct (claimed_end s theirHandler r path method i m (Some id') None w1 tr0)
        as (w' & rest & Hrun & Hend); [congruence|].
      exists w', [], rest. split; [exact Hrun | split; [reflexivity | exact Hend]].
    + destruct (IH (S i) w1
                  (tr0 ++ [EvReturnAPIIdIfCanHandleRequest i path method None None]))
        as (w' & checks & rest & Hrun & Hchecks & Hend).
      exists w', (EvReturnAPIIdIfCanHandleRequest i path method None None :: checks),
             rest.
      split; [rewrite Hrun, <- app_assoc; reflexivity|].
      split; [exact Hchecks | exact Hend].
Qed.

(** The log of a request whose path was normalised: checks that declined,
    then one ending. *)
Lemma middleware_shape s theirHandler r reqURL w :
  NewNormalisedURLPath (URLPath r) = (Some reqURL, None) →
  ∃ w' checks rest,
    middleware s theirHandler r (w, []) = (Done tt, (w', checks ++ rest)) ∧
    forallb isDecline checks = true ∧
    RoutingEnd r (AppendPath (APIGatewayPath (AppInfo s)) reqURL) (Method r) rest.
Proof.
  intros Hnorm.
  destruct (strings_HasPrefix
              (GetAsStringDangerous (AppendPath (APIGatewayPath (AppInfo s)) reqURL))
              (GetAsStringDangerous (APIBasePath (AppInfo s)))) eqn:Hin.
  - rewrite (middleware_inside _ _ _ _ _ Hnorm Hin). cbv zeta.
    destruct (negb (String.eqb (getRIDFromRequest r) "")).
    + destruct (findMatchedRecipe _ _ _) as [[i m]|].
      * unfold callReturnAPIIdIfCanHandleRequest. rewrite bind_run, external_run.
        destruct (ReturnAPIIdIfCanHandleRequest m _ _ w) as [[id err] w1].
        cbn [fst snd].
        destruct err as [e|]; [|destruct id as [id'|]].
        -- destruct (claimed_end s theirHandler r
                       (AppendPath (APIGatewayPath (AppInfo s)) reqURL) (Method r)
                       i m id (Some e) w1 [])
             as (w' & rest & Hrun & Hend); [congruence|].
           exists w', [], rest. split; [exact Hrun | split; [reflexivity | exact Hend]].
        -- destruct (claimed_end s theirHandler r
                       (AppendPath (APIGatewayPath (AppInfo s)) reqURL) (Method r)
                       i m (Some id') None w1 [])
             as (w' & rest & Hrun & Hend); [congruence|].
           exists w', [], rest. split; [exact Hrun | split; [reflexivity | exact Hend]].
        -- eexists _, [_], [EvTheirHandler r].
           split; [reflexivity | split; [reflexivity | constructor]].
      * eexists _, [], [EvTheirHandler r].
        split; [reflexivity | split; [reflexivity | constructor]].
    + apply scanRecipeModules_shape.
  - unfold middleware. rewrite Hnorm. cbn [bind ret deref]. rewrite Hin.
    eexists _, [], [EvTheirHandler r].
    split; [reflexivity | split; [reflexivity | constructor]].
Qed.

Lemma handled_app tr1 tr2 : handled (tr1 ++ tr2) = handled tr1 ++ handled tr2.
Proof. apply omap_app. Qed.

Lemma declines_quiet checks :
  forallb isDecline checks = true →
  handled checks = [] ∧ servedTheirHandler checks = false ∧
  forallb (λ ev, negb (inErrorChain ev)) checks = true.
Proof.
  induction checks as [|ev checks IH]; [auto|].
  cbn [forallb]. intros [Hev Hchecks]%andb_prop.
  destruct (IH Hchecks) as (Hh & Hs & He).
  destruct ev as [i p m [id|] [e|] | | | | |]; try discriminate.
  exact (conj Hh (conj Hs He)).
Qed.

Lemma error_chain_quiet evs :
  forallb inErrorChain evs = true →
  handled evs = [] ∧ servedTheirHandler evs = false ∧ answers evs = [].
Proof.
  induction evs as [|ev evs IH]; [auto|].
  cbn [forallb]. intros [Hev Hevs]%andb_prop.
  destruct (IH Hevs) as (Hh & Hs & Ha).
  destruct ev; try discriminate; exact (conj Hh (conj Hs Ha)).
Qed.

(** X4. For every request whose path was normalised, [middleware]
    returns and its log is a run of checks that declined followed by
    exactly one ending: the fallback handler; a check that returned an
    error, then only calls of the error chain; the check of the module
    that claimed the request and its [HandleAPIRequest]; or those two
    and, [HandleAPIRequest] having returned an error, only calls of the
    error chain. *)
Theorem middleware_log_shape s theirHandler r reqURL w :
  NewNormalisedURLPath (URLPath r) = (Some reqURL, None) →
  ∃ w' checks rest,
    middleware s theirHandler r (w, []) = (Done tt, (w', checks ++ rest)) ∧
    forallb isDecline checks = true ∧
    RoutingEnd r (AppendPath (APIGatewayPath (AppInfo s)) reqURL) (Method r) rest.
Proof. apply middleware_shape. Qed.

(** X5. For every request whose path was normalised, [middleware] calls
    [HandleAPIRequest] at most once, and only on a module, with the API
    id, that the module's own check answered without error; when it
    calls the fallback handler itself it has called no
    [HandleAPIRequest] and nothing of the error chain. *)
Theorem middleware_handles_or_passes_on s theirHandler r reqURL w :
  NewNormalisedURLPath (URLPath r) = (Some reqURL, None) →
  ∃ w' tr,
    middleware s theirHandler r (w, []) = (Done tt, (w', tr)) ∧
    (length (handled tr) ≤ 1)%nat ∧
    (∀ i id, (i, id) ∈ handled tr → (i, (Some id, None)) ∈ answers tr) ∧
    (servedTheirHandler tr = true →
     handled tr = [] ∧ forallb (λ ev, negb (inErrorChain ev)) tr = true).
Proof.
  intros Hnorm.
  destruct (middleware_shape s theirHandler r reqURL w Hnorm)
    as (w' & checks & rest & Hrun & Hchecks & Hend).
  exists w', (checks ++ rest). split; [exact Hrun|].
  destruct (declines_quiet _ Hchecks) as (Hh & Hs & He).
  rewrite handled_app, answers_app, servedTheirHandler_app, forallb_app, Hh, Hs, He.
  cbn [app orb andb].
  destruct Hend as [| i id e evs Hevs | i id | i id e evs Hevs].
  - split; [cbn; lia|]. split; [intros i id Hin; inversion Hin|]. auto.
  - destruct (error_chain_quiet _ Hevs) as (Hh' & Hs' & Ha').
    change (handled (?ev :: evs)) with (handled evs).
    change (servedTheirHandler (?ev :: evs)) with (servedTheirHandler evs).
    rewrite Hh', Hs'.
    split; [cbn; lia|]. split; [intros j id' Hin; inversion Hin | discriminate].
  - split; [cbn; lia|]. split; [|discriminate].
    intros j id' Hin. apply list_elem_of_singleton in Hin. injection Hin as -> ->.
    apply elem_of_app. right. left.
  - destruct (error_chain_quiet _ Hevs) as (Hh' & Hs' & Ha').
    change (handled (?e1 :: ?e2 :: evs)) with ((i, id) :: handled evs).
    change (servedTheirHandler (?e1 :: ?e2 :: evs)) with (servedTheirHandler evs).
    rewrite Hh', Hs'.
    split; [cbn; lia|]. split; [|discriminate].
    intros j id' Hin. apply list_elem_of_singleton in Hin. injection Hin as -> ->.
    apply elem_of_app. right. left.
Qed.

(** X6. When the normalisation of the path fails (nil pointer, non-nil
    error), everything [middleware] calls before it panics is a call of
    the error chain: no check of a module, no [HandleAPIRequest], no
    fallback handler.  For a [BadInputError] the first call writes the
    400 response with the error's message. *)
Theorem middleware_failed_normalisation_log s theirHandler r e w :
  NewNormalisedURLPath (URLPath r) = (None, Some e) →
  ∃ w' tr,
    middleware s theirHandler r (w, []) =
      (Panicked NilPointerDereference, (w', tr)) ∧
    forallb inErrorChain tr = true ∧
    answers tr = [] ∧ handled tr = [] ∧ servedTheirHandler tr = false ∧
    (errors_As_BadInputError e = true →
     ∃ catcher, head tr = Some (EvSendNon200Response (Error e) 400 catcher)).
Proof.
  intros Hnorm.
  destruct (errorHandler_events s e r w []) as (w' & tr & Hrun & Hevs).
  exists w', tr. unfold middleware. rewrite Hnorm, bind_run, Hrun.
  split; [reflexivity|]. split; [exact Hevs|].
  destruct (error_chain_quiet _ Hevs) as (Hh & Hs & Ha).
  split; [exact Ha|]. split; [exact Hh|]. split; [exact Hs|].
  intros Hkind. unfold errorHandler in Hrun. rewrite Hkind in Hrun.
  rewrite bind_run, external_run in Hrun.
  destruct (SendNon200Response (Error e) 400 w) as [[catcher|] w1];
    cbn in Hrun; injection Hrun as _ <-; eexists; reflexivity.
Qed.

(** *** More on initialisation *)

Lemma normaliseHosts_ok hostList :
  ∀ hosts new g,
    Forall2 (λ h host, NewNormalisedURLDomain h false = (Some host, None))
      hostList new →
    normaliseHosts hostList hosts g = (Done (inl (hosts ++ new)), g).
Proof.
  induction hostList as [|h rest IH]; intros hosts new g Hall;
    inversion Hall as [|? host ? new' Hh Hrest]; subst; cbn [normaliseHosts].
  - rewrite app_nil_r. reflexivity.
  - rewrite Hh. cbn [deref]. rewrite bind_run. cbn [ret].
    rewrite (IH _ _ _ Hrest), <- app_assoc. reflexivity.
Qed.

Lemma normaliseHosts_fail pre :
  ∀ h post host e hosts g,
    Forall (λ h', ∃ host', NewNormalisedURLDomain h' false = (Some host', None)) pre →
    NewNormalisedURLDomain h false = (host, Some e) →
    normaliseHosts (pre ++ h :: post) hosts g = (Done (inr e), g).
Proof.
  induction pre as [|h0 pre IH]; intros h post host e hosts g Hpre Hh;
    cbn [app normaliseHosts].
  - rewrite Hh. reflexivity.
  - inversion Hpre as [|? ? [host0 Hh0] Hpre']; subst.
    rewrite Hh0. cbn [deref]. rewrite bind_run. cbn [ret].
    eapply IH; eassumption.
Qed.

Lemma normaliseHosts_run hostList :
  ∀ hosts g hosts' g1,
    normaliseHosts hostList hosts g = (Done (inl hosts'), g1) →
    g1 = g ∧
    ∃ new, hosts' = hosts ++ new ∧
           Forall2 (λ h host, NewNormalisedURLDomain h false = (Some host, None))
             hostList new.
Proof.
  induction hostList as [|h rest IH]; intros hosts g hosts' g1 Hrun;
    cbn [normaliseHosts] in Hrun.
  - injection Hrun as <- <-. split; [reflexivity|].
    exists []. rewrite app_nil_r. split; [reflexivity | constructor].
  - destruct (NewNormalisedURLDomain h false) as [[host|] [e|]] eqn:Hh;
      try discriminate.
    cbn [deref] in Hrun. rewrite bind_run in Hrun. cbn [ret] in Hrun.
    destruct (IH _ _ _ _ Hrun) as (-> & new & -> & Hall).
    split; [reflexivity|]. exists (host :: new).
    split; [rewrite <- app_assoc; reflexivity | constructor; assumption].
Qed.

Lemma buildRecipeModules_modules appInfo recipeList :
  ∀ recipeModules g recipeModules' g1,
    buildRecipeModules appInfo recipeList recipeModules g =
      (Done (inl recipeModules'), g1) →
    ∃ new, recipeModules' = recipeModules ++ new ∧
           Forall2 (λ elem m, ∃ w w', elem appInfo w = ((Some m, None), w'))
             recipeList new.
Proof.
  induction recipeList as [|elem rest IH]; intros recipeModules g ms g1 Hrun;
    cbn [buildRecipeModules] in Hrun.
  - injection Hrun as <- _. exists [].
    rewrite app_nil_r. split; [reflexivity | constructor].
  - rewrite bind_run in Hrun. unfold liftWorld in Hrun.
    destruct (elem appInfo (world g)) as [[[m|] [e|]] w1] eqn:Helem;
      try discriminate.
    cbn [deref] in Hrun. rewrite bind_run in Hrun. cbn [ret] in Hrun.
    destruct (IH _ _ _ _ Hrun) as (new & -> & Hall).
    exists (m :: new).
    split; [rewrite <- app_assoc; reflexivity|].
    constructor; [eauto | assumption].
Qed.

(** The loop over the recipe list stops at the first factory that returns
    an error: the factories after it play no part. *)
Lemma buildRecipeModules_fail appInfo pre :
  ∀ elem post recipeModules g recipeModules' g1 m e w2,
    buildRecipeModules appInfo pre recipeModules g =
      (Done (inl recipeModules'), g1) →
    elem appInfo (world g1) = ((m, Some e), w2) →
    buildRecipeModules appInfo (pre ++ elem :: post) recipeModules g =
      (Done (inr e),
       {| superTokensInstance := superTokensInstance g1; world := w2 |}).
Proof.
  induction pre as [|elem0 pre IH];
    intros elem post recipeModules g ms g1 m e w2 Hpre Helem;
    cbn [app buildRecipeModules] in *.
  - injection Hpre as _ <-.
    rewrite bind_run. unfold liftWorld. rewrite Helem. reflexivity.
  - rewrite bind_run in *. unfold liftWorld in *.
    destruct (elem0 appInfo (world g)) as [[[m0|] [e0|]] w1];
      try discriminate.
    cbn [deref] in *. rewrite bind_run in *. cbn [ret] in *.
    eapply IH; eassumption.
Qed.

Lemma sendTelemetry_reachable g q w1 response w2 :
  superTokensInstance g = None →
  GetNewQuerierInstanceOrThrowError "" (world g) = ((Some q, None), w1) →
  SendGetRequest q "/telemetry" w1 = ((response, None), w2) →
  ∃ p, sendTelemetry g =
       (Panicked p, {| superTokensInstance := None; world := w2 |}).
Proof.
  intros Hinst Hq Hget. unfold sendTelemetry.
  rewrite bind_run. unfold liftWorld at 1. rewrite Hq.
  cbn [deref]. rewrite bind_run. cbn [ret].
  rewrite bind_run. unfold liftWorld at 1. cbn [world]. rewrite Hget.
  rewrite bind_run.
  destruct (response !! "exists") as [[[]| |]|]; cbn [assertBool ret panic];
    try (eexists; rewrite Hinst; reflexivity).
  rewrite bind_run.
  destruct (response !! "telemetryId") as [[| |]|];
    cbn [assertString ret panic]; eexists; rewrite Hinst; reflexivity.
Qed.

Lemma sendTelemetry_not_nil g res g' :
  superTokensInstance g = None →
  sendTelemetry g = (res, g') →
  res ≠ Done None.
Proof.
  intros Hinst Hrun. unfold sendTelemetry in Hrun.
  rewrite bind_run in Hrun. unfold liftWorld at 1 in Hrun.
  destruct (GetNewQuerierInstanceOrThrowError "" (world g))
    as [[querier [e|]] w1].
  { injection Hrun as <- _. discriminate. }
  destruct querier as [q|]; [|injection Hrun as <- _; discriminate].
  cbn [deref] in Hrun. rewrite bind_run in Hrun. cbn [ret] in Hrun.
  rewrite bind_run in Hrun. unfold liftWorld at 1 in Hrun. cbn [world] in Hrun.
  destruct (SendGetRequest q "/telemetry" w1) as [[response [e|]] w2].
  { injection Hrun as <- _. discriminate. }
  rewrite bind_run in Hrun.
  destruct (response !! "exists") as [[[]| |]|]; cbn [assertBool ret panic] in Hrun;
    try (injection Hrun as <- _; discriminate).
  - rewrite bind_run in Hrun.
    destruct (response !! "telemetryId") as [[| |]|];
      cbn [assertString ret panic] in Hrun;
      try (injection Hrun as <- _; discriminate).
    rewrite bind_run in Hrun. cbn [superTokensInstance deref panic] in Hrun.
    rewrite Hinst in Hrun. injection Hrun as <- _. discriminate.
  - rewrite bind_run in Hrun. cbn [ret] in Hrun. rewrite bind_run in Hrun.
    cbn [superTokensInstance deref panic] in Hrun.
    rewrite Hinst in Hrun. injection Hrun as <- _. discriminate.
Qed.

(** Every way [supertokensInit] ends when the instance is nil: the
    instance stays nil and the result is not nil, or the result is nil
    and the instance is assigned from the configuration. *)
Lemma supertokensInit_cases config g res g' :
  superTokensInstance g = None →
  supertokensInit config g = (res, g') →
  (superTokensInstance g' = None ∧ res ≠ Done None) ∨
  (res = Done None ∧
   ∃ appInfo recipeList recipeModules,
     NormaliseInputAppInfoOrThrowError (config_AppInfo config) = (appInfo, None) ∧
     config_RecipeList config = Some recipeList ∧
     recipeList ≠ [] ∧
     Forall2 (λ elem m, ∃ w w', elem appInfo w = ((Some m, None), w'))
       recipeList recipeModules ∧
     superTokensInstance g' =
       Some {| AppInfo := appInfo;
               RecipeModules := recipeModules;
               OnGeneralError :=
                 match config_OnGeneralError config with
                 | Some f => f
                 | None => defaultOnGeneralError
                 end |} ∧
     (config_Telemetry config = Some true →
      ∃ g2 r g3, superTokensInstance g2 = None ∧
                 sendTelemetry g2 = (Done r, g3))).
Proof.
  intros Hinst Hrun. unfold supertokensInit in Hrun. rewrite Hinst in Hrun.
  cbv zeta in Hrun.
  destruct (NormaliseInputAppInfoOrThrowError (config_AppInfo config))
    as [appInfo [e|]] eqn:Happ.
  { injection Hrun as <- <-. left. split; [exact Hinst | discriminate]. }
  rewrite bind_run in Hrun.
  match type of Hrun with
  | (let (_, _) := ?q g in _) = _ =>
      assert (HQ : keepsInstance q)
        by (keeps_instance; apply keepsInstance_normaliseHosts);
      specialize (HQ g); destruct (q g) as [[[e|]|p] g1]
  end.
  all: cbn [snd] in HQ; rewrite Hinst in HQ.
  1, 3: injection Hrun as <- <-; left; split; [exact HQ | discriminate].
  destruct (config_RecipeList config) as [[|elem rest]|] eqn:Hlist.
  1, 3: injection Hrun as <- <-; left; split; [exact HQ | discriminate].
  rewrite bind_run in Hrun.
  pose proof (keepsInstance_buildRecipeModules appInfo (elem :: rest) [] g1) as HB.
  destruct (buildRecipeModules appInfo (elem :: rest) [] g1)
    as [[[recipeModules|e]|p] g2] eqn:Hbuild; cbn [snd] in HB; rewrite HQ in HB.
  2, 3: injection Hrun as <- <-; left; split; [exact HB | discriminate].
  rewrite bind_run in Hrun.
  assert (Htel : ∀ g3,
            (match config_Telemetry config with
             | Some true => bind sendTelemetry (λ _, ret tt)
             | _ => ret tt
             end g2).2 = g3 →
            superTokensInstance g3 = None).
  { intros g3 <-.
    destruct (config_Telemetry config) as [[]|]; [|exact HB..].
    rewrite bind_run. pose proof (keepsInstance_sendTelemetry g2) as HT.
    destruct (sendTelemetry g2) as [[r|p] g3]; cbn [snd ret] in *; congruence. }
  assert (Hsent : ∀ u g3,
            match config_Telemetry config with
            | Some true => bind sendTelemetry (λ _, ret tt)
            | _ => ret tt
            end g2 = (Done u, g3) →
            config_Telemetry config = Some true →
            ∃ r g3', sendTelemetry g2 = (Done r, g3')).
  { intros u g3 Hdone Hon. rewrite Hon, bind_run in Hdone.
    destruct (sendTelemetry g2) as [[r|p] g3']; [eauto | discriminate]. }
  destruct (match config_Telemetry config with
            | Some true => bind sendTelemetry (λ _, ret tt)
            | _ => ret tt
            end g2) as [[[]|p] g3] eqn:Htelrun.
  2: { injection Hrun as <- <-. left.
       split; [apply Htel; reflexivity | discriminate]. }
  cbn in Hrun. injection Hrun as <- <-. right.
  split; [reflexivity|].
  destruct (buildRecipeModules_modules _ _ _ _ _ _ Hbuild) as (new & -> & Hall).
  exists appInfo, (elem :: rest), new.
  split; [reflexivity|]. split; [reflexivity|]. split; [discriminate|].
  split; [exact Hall|]. split; [reflexivity|].
  intros Hon. destruct (Hsent _ _ eq_refl Hon) as (r & g3' & Hsend).
  exists g2, r, g3'. split; [exact HB | exact Hsend].
Qed.

(** X7. When the normalisation of the app info fails, or that of a host
    of the connection URI (the hosts before it being valid),
    [supertokensInit] returns that error and has changed nothing: the
    instance stays nil, the querier is not initialised and no recipe
    factory is called. *)
Theorem supertokensInit_fails_untouched config g e :
  superTokensInstance g = None →
  ((NormaliseInputAppInfoOrThrowError (config_AppInfo config)).2 = Some e →
   supertokensInit config g = (Done (Some e), g)) ∧
  (∀ st pre h post host,
     (NormaliseInputAppInfoOrThrowError (config_AppInfo config)).2 = None →
     config_Supertokens config = Some st →
     strings_Split (ConnectionURI st) ";"%char = pre ++ h :: post →
     Forall (λ h', ∃ host', NewNormalisedURLDomain h' false = (Some host', None))
       pre →
     NewNormalisedURLDomain h false = (host, Some e) →
     supertokensInit config g = (Done (Some e), g)).
Proof.
  intros Hinst. split.
  - intros Happ. unfold supertokensInit. rewrite Hinst. cbv zeta.
    destruct (NormaliseInputAppInfoOrThrowError (config_AppInfo config))
      as [appInfo err]. cbn [snd] in Happ. subst err. reflexivity.
  - intros st pre h post host Happ Hst Hsplit Hpre Hh.
    unfold supertokensInit. rewrite Hinst. cbv zeta.
    destruct (NormaliseInputAppInfoOrThrowError (config_AppInfo config))
      as [appInfo err]. cbn [snd] in Happ. subst err.
    rewrite bind_run, Hst, bind_run, Hsplit.
    rewrite (normaliseHosts_fail _ _ _ _ _ _ _ Hpre Hh). reflexivity.
Qed.

(** The first steps of [supertokensInit] when the app info and the hosts
    are valid: up to the call of [initQuerier]. *)
Ltac init_to_querier Hinst Happ Hq :=
  unfold supertokensInit; rewrite Hinst; cbv zeta; rewrite Happ;
  rewrite bind_run; unfold querierHosts in Hq;
  let st := fresh "st" in
  let Hhosts := fresh "Hhosts" in
  destruct (config_Supertokens _) as [st|];
  [ destruct Hq as [Hhosts ->];
    rewrite bind_run, (normaliseHosts_ok _ [] _ _ Hhosts);
    cbn [app]; rewrite bind_run; unfold liftWorld at 1
  | destruct Hq as [-> ->]; rewrite bind_run; unfold liftWorld at 1 ];
  cbn [ret fst snd].

(** X8. With a nil or empty recipe list, [supertokensInit] returns its
    own error and leaves the instance nil, but only after it has
    initialised the querier with the hosts of the connection URI, in
    their order. *)
Theorem supertokensInit_no_recipes config g appInfo hosts apiKey :
  superTokensInstance g = None →
  NormaliseInputAppInfoOrThrowError (config_AppInfo config) = (appInfo, None) →
  querierHosts config hosts apiKey →
  config_RecipeList config = None ∨ config_RecipeList config = Some [] →
  supertokensInit config g =
  (Done (Some noRecipeError),
   {| superTokensInstance := None;
      world := initQuerier hosts apiKey (world g) |}).
Proof.
  intros Hinst Happ Hq Hlist.
  init_to_querier Hinst Happ Hq;
    destruct Hlist as [-> | ->]; rewrite Hinst; reflexivity.
Qed.

(** X9. When a recipe factory returns an error, the factories before it
    having given their modules, [supertokensInit] returns that error with
    the instance nil and the world as the failing factory left it: the
    factories after it are not called. *)
Theorem supertokensInit_failing_factory
    config g appInfo hosts apiKey pre elem post recipeModules g1 m e w2 :
  superTokensInstance g = None →
  NormaliseInputAppInfoOrThrowError (config_AppInfo config) = (appInfo, None) →
  querierHosts config hosts apiKey →
  config_RecipeList config = Some (pre ++ elem :: post) →
  buildRecipeModules appInfo pre []
    {| superTokensInstance := None;
       world := initQuerier hosts apiKey (world g) |} =
    (Done (inl recipeModules), g1) →
  elem appInfo (world g1) = ((m, Some e), w2) →
  supertokensInit config g =
  (Done (Some e), {| superTokensInstance := None; world := w2 |}).
Proof.
  intros Hinst Happ Hq Hlist Hpre Helem.
  pose proof (keepsInstance_buildRecipeModules appInfo pre []
                {| superTokensInstance := None;
                   world := initQuerier hosts apiKey (world g) |}) as Hkeep.
  rewrite Hpre in Hkeep. cbn [snd superTokensInstance] in Hkeep.
  pose proof (buildRecipeModules_fail appInfo pre elem post _ _ _ _ _ _ _
                Hpre Helem) as Hfail.
  rewrite Hkeep in Hfail.
  unfold RecipeListFunction in *.
  destruct (pre ++ elem :: post) as [|elem0 rest] eqn:Hcons;
    [destruct pre; discriminate|].
  init_to_querier Hinst Happ Hq; rewrite Hlist, Hinst, bind_run, Hfail;
    reflexivity.
Qed.

(** X10. The instance [supertokensInit] assigns holds the normalised app
    info, the general error handler of the configuration or, without
    one, the default that answers 500 with the error's message, and one
    module per recipe factory, in the order of the recipe list. *)
Theorem supertokensInit_assigns_configuration config g res g' s' :
  superTokensInstance g = None →
  supertokensInit config g = (res, g') →
  superTokensInstance g' = Some s' →
  AppInfo s' = (NormaliseInputAppInfoOrThrowError (config_AppInfo config)).1 ∧
  (∀ err req w,
     OnGeneralError s' err req w =
     match config_OnGeneralError config with
     | Some f => f err req w
     | None => http_Error (Error err) 500 w
     end) ∧
  ∃ recipeList,
    config_RecipeList config = Some recipeList ∧
    Forall2 (λ elem m, ∃ w w', elem (AppInfo s') w = ((Some m, None), w'))
      recipeList (RecipeModules s').
Proof.
  intros Hinst Hrun Hassigned.
  destruct (supertokensInit_cases _ _ _ _ Hinst Hrun)
    as [[Hnone _] | (_ & appInfo & recipeList & recipeModules & Happ & Hlist
                       & _ & Hall & Hs' & _)]; [congruence|].
  rewrite Hs' in Hassigned. injection Hassigned as <-.
  cbn [AppInfo OnGeneralError RecipeModules]. rewrite Happ.
  split; [reflexivity|]. split.
  - intros err req w. destruct (config_OnGeneralError config); reflexivity.
  - exists recipeList. split; [exact Hlist | exact Hall].
Qed.

(** X11. After a call of [supertokensInit] that returned nil,
    [getInstanceOrThrowError] gives an instance, and a further call with
    any configuration returns nil and changes nothing: the first
    configuration stays. *)
Theorem supertokensInit_twice config1 config2 g g1 :
  supertokensInit config1 g = (Done None, g1) →
  (∃ s, getInstanceOrThrowError g1 = (Some s, None)) ∧
  supertokensInit config2 g1 = (Done None, g1).
Proof.
  intros Hrun.
  assert (∃ s, superTokensInstance g1 = Some s) as [s Hs].
  { destruct (superTokensInstance g) as [s0|] eqn:Hinst.
    - unfold supertokensInit in Hrun. rewrite Hinst in Hrun.
      injection Hrun as <-. eauto.
    - destruct (supertokensInit_cases _ _ _ _ Hinst Hrun)
        as [[_ Hres] | (_ & ? & ? & ? & _ & _ & _ & _ & Hs' & _)];
        [congruence | eauto]. }
  split.
  - exists s. unfold getInstanceOrThrowError. rewrite Hs. reflexivity.
  - unfold supertokensInit. rewrite Hs. reflexivity.
Qed.

(** X12. [sendTelemetry] run while [superTokensInstance] is nil, as
    [supertokensInit] runs it, never returns nil: it returns an error of
    the querier or panics; and when the querier answers the telemetry
    request without error it panics. *)
Theorem sendTelemetry_before_assignment g :
  superTokensInstance g = None →
  (∀ res g', sendTelemetry g = (res, g') → res ≠ Done None) ∧
  (∀ q w1 response w2,
     GetNewQuerierInstanceOrThrowError "" (world g) = ((Some q, None), w1) →
     SendGetRequest q "/telemetry" w1 = ((response, None), w2) →
     ∃ p, sendTelemetry g =
          (Panicked p, {| superTokensInstance := None; world := w2 |})).
Proof.
  intros Hinst. split.
  - intros res g'. apply sendTelemetry_not_nil. exact Hinst.
  - intros q w1 response w2. apply sendTelemetry_reachable. exact Hinst.
Qed.

(** X13. With telemetry switched on and a querier that answers the
    telemetry request without error in every world, a call of
    [supertokensInit] that finds the instance nil never returns nil and
    never assigns the instance. *)
Theorem supertokensInit_telemetry_never_succeeds config g res g' :
  (∀ w, ∃ q w1 response w2,
     GetNewQuerierInstanceOrThrowError "" w = ((Some q, None), w1) ∧
     SendGetRequest q "/telemetry" w1 = ((response, None), w2)) →
  superTokensInstance g = None →
  config_Telemetry config = Some true →
  supertokensInit config g = (res, g') →
  res ≠ Done None ∧ superTokensInstance g' = None.
Proof.
  intros Hcore Hinst Hon Hrun.
  destruct (supertokensInit_cases _ _ _ _ Hinst Hrun)
    as [[Hnone Hres] | (_ & ? & ? & ? & _ & _ & _ & _ & _ & Htel)];
    [split; assumption|].
  exfalso. destruct (Htel Hon) as (g2 & r & g3 & Hnil & Hsend).
  destruct (Hcore (world g2)) as (q & w1 & response & w2 & Hq & Hget).
  destruct (sendTelemetry_reachable _ _ _ _ _ Hnil Hq Hget) as [p Hpanic].
  congruence.
Qed.

(** *** More on the CORS headers *)

Lemma getAllCORSHeaders_elem_of s h :
  (∀ m : gmap string bool, rangeKeys m ≡ₚ (map_to_list m).*1) →
  h ∈ getAllCORSHeaders s ↔
  h = HeaderRID ∨ h = HeaderFDI ∨
  ∃ m, m ∈ RecipeModules s ∧ h ∈ GetAllCORSHeaders m.
Proof.
  intros Horder. unfold getAllCORSHeaders. cbv zeta.
  rewrite foldl_snoc, app_nil_l, Horder, elem_of_keys.
  rewrite insertRecipeHeaders_lookup, !lookup_insert_is_Some', lookup_empty.
  split.
  - intros [[->|[->|H]]|H]; auto. destruct H as [? H]; discriminate.
  - intros [->|[->|H]]; auto.
Qed.

Lemma getAllCORSHeaders_NoDup s :
  (∀ m : gmap string bool, rangeKeys m ≡ₚ (map_to_list m).*1) →
  NoDup (getAllCORSHeaders s).
Proof.
  intros Horder. unfold getAllCORSHeaders. cbv zeta.
  rewrite foldl_snoc, app_nil_l, Horder. apply NoDup_fst_map_to_list.
Qed.

(** X14. The headers [getAllCORSHeaders] returns do not depend on the
    order in which the modules were registered: for two dispatchers
    with the same modules in different orders the results are
    permutations of each other. *)
Theorem getAllCORSHeaders_registration_order s1 s2 :
  (∀ m : gmap string bool, rangeKeys m ≡ₚ (map_to_list m).*1) →
  RecipeModules s1 ≡ₚ RecipeModules s2 →
  getAllCORSHeaders s1 ≡ₚ getAllCORSHeaders s2.
Proof.
  intros Horder Hperm.
  apply NoDup_Permutation; [apply getAllCORSHeaders_NoDup; exact Horder.. |].
  intros h. rewrite !getAllCORSHeaders_elem_of by exact Horder.
  split; (intros [H|[H|(m & Hm & Hh)]]; [auto | auto |]);
    right; right; exists m; (split; [|exact Hh]).
  - rewrite <- Hperm. exact Hm.
  - rewrite Hperm. exact Hm.
Qed.

(** *** User queries *)

(** X15. [getUsers] returns a nil result exactly when it returns an
    error. *)
Theorem getUsers_result_or_error
    timeJoinedOrder limit paginationToken includeRecipeIds st result err st' :
  getUsers timeJoinedOrder limit paginationToken includeRecipeIds st =
    (Done (result, err), st') →
  result = None ↔ err ≠ None.
Proof.
  unfold getUsers. cbv zeta. rewrite bind_run. destruct st as [w tr].
  rewrite external_run.
  destruct (GetNewQuerierInstanceOrThrowError "" w) as [[querier [e|]] w1];
    cbn [fst snd].
  { intros [= <- <- _]. split; [discriminate | reflexivity]. }
  destruct querier as [q|]; [|discriminate].
  cbn [deref]. rewrite bind_run. cbn [ret]. rewrite bind_run, external_run.
  destruct (SendGetRequestWith q "/users" _ w1) as [[resp [e|]] w2];
    cbn [fst snd].
  { intros [= <- <- _]. split; [discriminate | reflexivity]. }
  destruct (json_MarshalResponse resp) as [temporaryVariable [e|]].
  { intros [= <- <- _]. split; [discriminate | reflexivity]. }
  destruct (json_Unmarshal temporaryVariable) as [r [e|]];
    intros [= <- <- _]; split; try discriminate; try reflexivity; congruence.
Qed.

(** X16. [getUsers] sends at most one request, after it has asked for a
    querier, to [/users]; its parameters hold [timeJoinedOrder] always,
    [limit], [paginationToken] and [includeRecipeIds] (joined with
    commas) exactly for the arguments that are not nil, and no other
    key. *)
Theorem getUsers_request
    timeJoinedOrder limit paginationToken includeRecipeIds w :
  ∃ requestBody : gmap string GoValue,
    requestBody !! "timeJoinedOrder" = Some (GoString timeJoinedOrder) ∧
    requestBody !! "limit" = GoNumber <$> limit ∧
    requestBody !! "paginationToken" = GoString <$> paginationToken ∧
    requestBody !! "includeRecipeIds" =
      (λ ids, GoString (strings_Join ids ",")) <$> includeRecipeIds ∧
    (∀ k, is_Some (requestBody !! k) →
          k ∈ ["timeJoinedOrder"; "limit"; "paginationToken"; "includeRecipeIds"]) ∧
    ((∃ err,
        (getUsers timeJoinedOrder limit paginationToken includeRecipeIds
           (w, [])).2.2 = [EvGetNewQuerier "" err]) ∨
     (∃ err,
        (getUsers timeJoinedOrder limit paginationToken includeRecipeIds
           (w, [])).2.2 =
        [EvGetNewQuerier "" None; EvSendGetRequest "/users" requestBody err])).
Proof.
  eexists. repeat split.
  6: { unfold getUsers. cbv zeta. rewrite bind_run, external_run.
       destruct (GetNewQuerierInstanceOrThrowError "" w) as [[querier [e|]] w1];
         cbn [fst snd app]; [left; eexists; reflexivity|].
       destruct querier as [q|]; [|left; eexists; reflexivity].
       cbn [deref]. rewrite bind_run. cbn [ret]. rewrite bind_run, external_run.
       right.
       destruct (SendGetRequestWith q "/users" _ w1) as [[resp [e|]] w2];
         cbn [fst snd app]; [eexists; reflexivity|].
       destruct (json_MarshalResponse resp) as [temporaryVariable [e|]];
         [eexists; reflexivity|].
       destruct (json_Unmarshal temporaryVariable) as [r [e|]];
         eexists; reflexivity. }
  - destruct limit, paginationToken, includeRecipeIds; reflexivity.
  - destruct limit, paginationToken, includeRecipeIds; reflexivity.
  - destruct limit, paginationToken, includeRecipeIds; reflexivity.
  - destruct limit, paginationToken, includeRecipeIds; reflexivity.
  - intros k Hk.
    rewrite !elem_of_cons.
    destruct limit, paginationToken, includeRecipeIds;
      repeat (apply lookup_insert_is_Some' in Hk as [<-|Hk]; [auto 10|]);
      apply lookup_singleton_is_Some in Hk as <-; auto 10.
Qed.

(** X17. [getUserCount] returns [-1] with every error it returns. *)
Theorem getUserCount_error includeRecipeIds st n e st' :
  getUserCount includeRecipeIds st = (Done (n, Some e), st') →
  n = -1.
Proof.
  unfold getUserCount. cbv zeta. rewrite bind_run. destruct st as [w tr].
  rewrite external_run.
  destruct (GetNewQuerierInstanceOrThrowError "" w) as [[querier [e0|]] w1];
    cbn [fst snd]; [intros [= <- _ _]; reflexivity|].
  destruct querier as [q|]; [|discriminate].
  cbn [deref]. rewrite bind_run. cbn [ret]. rewrite bind_run, external_run.
  destruct (SendGetRequestWith q "/users/count" _ w1) as [[resp [e0|]] w2];
    cbn [fst snd]; [intros [= <- _ _]; reflexivity|].
  rewrite bind_run.
  destruct (resp !! "count") as [[| |count]|]; cbn [assertInt ret panic];
    discriminate.
Qed.

(** X18. When the querier answers the count request without error,
    [getUserCount] returns the integer the response holds under
    [count], and panics when the response holds none. *)
Theorem getUserCount_reads_count includeRecipeIds w q w1 resp w2 :
  let requestBody : gmap string GoValue :=
    match includeRecipeIds with
    | Some ids => {[ "includeRecipeIds" := GoString (strings_Join ids ",") ]}
    | None => ∅
    end in
  GetNewQuerierInstanceOrThrowError "" w = ((Some q, None), w1) →
  SendGetRequestWith q "/users/count" requestBody w1 = ((resp, None), w2) →
  getUserCount includeRecipeIds (w, []) =
  (match resp !! "count" with
   | Some (GoNumber count) => Done (count, None)
   | _ => Panicked InterfaceConversion
   end,
   (w2, [EvGetNewQuerier "" None;
         EvSendGetRequest "/users/count" requestBody None])).
Proof.
  intros requestBody Hq Hget.
  unfold getUserCount. cbv zeta. rewrite bind_run, external_run, Hq.
  cbn [fst snd deref]. rewrite bind_run. cbn [ret].
  rewrite bind_run, external_run.
  replace (match includeRecipeIds with
           | Some ids => <["includeRecipeIds" := GoString (strings_Join ids ",")]> ∅
           | None => ∅
           end) with requestBody
    by (subst requestBody; destruct includeRecipeIds; reflexivity).
  rewrite Hget. cbn [fst snd app]. rewrite bind_run.
  destruct (resp !! "count") as [[| |count]|]; reflexivity.
Qed.

End Supertokens.

Arguments GetRecipeID {World} _.
Arguments ReturnAPIIdIfCanHandleRequest {World} _ _ _ _.
Arguments HandleAPIRequest {World} _ _ _ _ _ _ _.
Arguments GetAllCORSHeaders {World} _.
Arguments HandleError {World} _.
Arguments AppInfo {World} _.
Arguments RecipeModules {World} _.
Arguments OnGeneralError {World} _ _ _ _.
Arguments errorHandler {World} _ _ _ _ _.
Arguments middleware {World} _ _ _ _ _ _ _.
Arguments getAllCORSHeaders {World} _ _ _ _.
Arguments superTokensInstance {World} _.
Arguments world {World} _.
Arguments supertokensInit {World AppInfoInput} _ _ _ _ {Querier} _ _ _ {HTTPRequest} _ _ _ _.
Arguments getInstanceOrThrowError {World} _.
Arguments HandleRefreshAPI {World UserContext SessionContainer JSONBody} _ _ _ _ _.
Arguments ErrorChain {World} _ _ _ _ _ _ _ _.
Arguments FirstClaim {World} _ _ _ _ _ _ _ _ _ _.
Arguments Req {World} _.
Arguments OtherHandler {World} _ _ _.
Arguments RefreshPOST {World UserContext SessionContainer} _.
Arguments EvOtherHandler {World UserContext JSONBody} _.
Arguments EvRefreshPOST {World UserContext JSONBody} _ _ _.
Arguments EvSend200Response {World UserContext JSONBody} _ _.

(** ** A deployment to run the dispatcher on

    The scenario of the specification: base path [/auth], no gateway
    path, recipes [emailpassword] and [session] registered in this order.
    The world is the list of what was sent to the client or passed on. *)

Definition demoWorld : Type := list string.

Definition demoNewNormalisedURLPath (p : string)
  : option NormalisedURLPath * option error :=
  if String.prefix "/" p then (Some {| pathValue := p |}, None)
  else (None, Some (BadInputError "Please provide a valid URL path")).

Fixpoint demoHeaderGet (key : string) (header : list (string * string)) : string :=
  match header with
  | [] => ""
  | (k, v) :: rest => if String.eqb k key then v else demoHeaderGet key rest
  end.

Definition demoGetRIDFromRequest (r : Request) : string :=
  demoHeaderGet "rid" (Header r).

Definition demoSendNon200Response (message : string) (statusCode : Z)
    (w : demoWorld) : option error * demoWorld :=
  (None, w ++ ["response: " +:+ message]).

(** A response writer that is already closed. *)
Definition demoBrokenSendNon200Response (message : string) (statusCode : Z)
    (w : demoWorld) : option error * demoWorld :=
  (Some (errorString "write failed"), w).

Definition demoTheirHandler : Handler demoWorld :=
  λ r w, w ++ ["passed on: " +:+ URLPath r].

Definition demoEmailPassword : RecipeModule demoWorld := {|
  GetRecipeID := "emailpassword";
  ReturnAPIIdIfCanHandleRequest path method w :=
    if String.eqb (pathValue path) "/auth/signin" && String.eqb method "POST"
    then ((Some "/signin", None), w)
    else if String.eqb (pathValue path) "/auth/user/email/exists"
    then ((None, Some (errorString "not reachable")), w)
    else ((None, None), w);
  HandleAPIRequest id r theirHandler path method w :=
    (Some (errorString "wrong credentials"), w);
  GetAllCORSHeaders := [];
  HandleError := None
|}.

Definition demoSession : RecipeModule demoWorld := {|
  GetRecipeID := "session";
  ReturnAPIIdIfCanHandleRequest path method w :=
    if String.eqb (pathValue path) "/auth/sessioninfo" && String.eqb method "GET"
    then ((Some "/sessioninfo", None), w)
    else ((None, None), w);
  HandleAPIRequest id r theirHandler path method w :=
    (None, w ++ ["response: session fields"]);
  GetAllCORSHeaders := ["anti-csrf"; "rid"];
  HandleError :=
    Some (λ err req w,
            if String.eqb (Error err) "unauthorised"
            then ((true, None), w ++ ["response: 401"])
            else if String.eqb (Error err) "token theft"
            then ((false, Some (errorString "revoke failed")), w)
            else ((false, None), w))
|}.

Definition demoAppInfo : NormalisedAppinfo := {|
  AppName := "SuperTokens Demo App";
  APIDomain := {| domainValue := "http://localhost:3001" |};
  WebsiteDomain := {| domainValue := "http://localhost:3000" |};
  APIBasePath := {| pathValue := "/auth" |};
  APIGatewayPath := {| pathValue := "" |}
|}.

Definition demoOnGeneralError (err : error) (req : Request) (w : demoWorld)
  : demoWorld :=
  w ++ ["response: 500 " +:+ Error err].

Definition demoSuperTokens : superTokens demoWorld := {|
  AppInfo := demoAppInfo;
  RecipeModules := [demoEmailPassword; demoSession];
  OnGeneralError := demoOnGeneralError
|}.

Definition demoRequest (method path : string) (header : list (string * string))
  : Request :=
  {| URLPath := path; Method := method; Header := header |}.

Definition demoMiddleware :=
  middleware demoNewNormalisedURLPath demoGetRIDFromRequest
    demoSendNon200Response demoSuperTokens demoTheirHandler.

(** Go may visit the keys of a map in any order; here, in the reverse of
    the order of [map_to_list]. *)
Definition demoRangeKeys (m : gmap string bool) : list string :=
  reverse (map_to_list m).*1.

(** Initialisation: app info that is accepted when it has a name, hosts
    that must start with [http], a querier that is not reachable. *)
Definition demoNormaliseInputAppInfoOrThrowError (appName : string)
  : NormalisedAppinfo * option error :=
  if String.eqb appName "" then
    (demoAppInfo, Some (errorString "Please provide your appName inside the appInfo object"))
  else (demoAppInfo, None).

Definition demoNewNormalisedURLDomain (h : string) (ignoreProtocol : bool)
  : option NormalisedURLDomain * option error :=
  if String.prefix "http" h then (Some {| domainValue := h |}, None)
  else (None, Some (errorString "Please provide a valid domain name")).

Definition demoInitQuerier (hosts : list NormalisedURLDomain)
    (apiKey : option string) (w : demoWorld) : demoWorld :=
  w ++ ["querier initialised"].

Definition demoHTTPError (message : string) (statusCode : Z) (w : demoWorld)
  : demoWorld :=
  w ++ ["response: 500 " +:+ message].

Definition demoGetNewQuerier (rid : string) (w : demoWorld)
  : (option unit * option error) * demoWorld :=
  ((None, Some (errorString "no querier")), w).

Definition demoSendGetRequest (q : unit) (path : string) (w : demoWorld)
  : (gmap string GoValue * option error) * demoWorld :=
  ((∅, Some (errorString "no core")), w).

Definition demoJSONMarshal (data : list (string * string))
  : string * option error :=
  ("{}", None).

Definition demoNewRequest (method url body : string)
  : option unit * option error :=
  (Some tt, None).

Definition demoClientDo (req : unit) (header : list (string * string))
    (w : demoWorld) : option error * demoWorld :=
  (None, w).

Definition demoInit :=
  supertokensInit demoNormaliseInputAppInfoOrThrowError
    demoNewNormalisedURLDomain demoInitQuerier demoHTTPError
    demoGetNewQuerier demoSendGetRequest demoJSONMarshal
    demoNewRequest demoClientDo.

Definition demoConfig (appName : string)
    (recipeList : option (list (RecipeListFunction demoWorld)))
  : TypeInput demoWorld string := {|
  config_Supertokens := Some {| ConnectionURI := "https://try.supertokens.io";
                                APIKey := None |};
  config_AppInfo := appName;
  config_RecipeList := recipeList;
  config_Telemetry := None;
  config_OnGeneralError := None
|}.

Definition demoGlobals : Globals demoWorld :=
  {| superTokensInstance := None; world := [] |}.

Definition demoSessionInit : RecipeListFunction demoWorld :=
  λ appInfo w, ((Some demoSession, None), w).

(** The instance a successful initialisation with the session recipe
    assigns. *)
Definition demoInitialised : superTokens demoWorld := {|
  AppInfo := demoAppInfo;
  RecipeModules := [demoSession];
  OnGeneralError := defaultOnGeneralError demoWorld demoHTTPError
|}.

(** The refresh handler: the user context is the request path. *)
Definition demoHandleRefreshAPI :=
  HandleRefreshAPI (World := demoWorld) (UserContext := string)
    (SessionContainer := string) (JSONBody := string)
    (λ req, URLPath req)
    (λ body w, (None, w ++ ["response: 200 " +:+ default "{}" body])).

Definition demoOptions : APIOptions demoWorld := {|
  Req := demoRequest "POST" "/auth/session/refresh" [];
  OtherHandler := demoTheirHandler
|}.

Definition demoRefreshPOST (options : APIOptions demoWorld) (userContext : string)
    (w : demoWorld) : (option string * option error) * demoWorld :=
  ((Some "session", None), w ++ ["refreshed for " +:+ userContext]).

Definition demoProfileRequest : Request := demoRequest "GET" "/profile" [].

Definition demoSessionInfoRequest : Request :=
  demoRequest "GET" "/auth/sessioninfo" [].

Definition demoSessionInfoWithRID (rid : string) : Request :=
  demoRequest "GET" "/auth/sessioninfo" [("rid", rid)].

Definition demoMalformedRequest : Request := demoRequest "GET" "auth" [].

Definition demoSessionInfoPath : NormalisedURLPath :=
  {| pathValue := "/auth/sessioninfo" |}.

(** ** The properties on the deployment *)

(** The session recipe's [HandleError] handles an [unauthorised] error
    raised for a request. *)
Lemma errorHandler_chain_witness :
  ∃ tr w',
    ErrorChain demoSuperTokens (errorString "unauthorised") demoSessionInfoRequest
      0 (RecipeModules demoSuperTokens) [] tr w' ∧
    errorHandler demoSendNon200Response demoSuperTokens
      (errorString "unauthorised") demoSessionInfoRequest ([], []) =
    (Done tt, (w', tr)).
Proof. apply errorHandler_chain. reflexivity. Defined.

(** A [BadInputError] whose 400 response cannot be written reaches the
    general error handler as it is. *)
Lemma errorHandler_bad_input_witness :
  errorHandler demoBrokenSendNon200Response demoSuperTokens
    (BadInputError "bad path") demoMalformedRequest ([], []) =
  (Done tt,
   (["response: 500 bad path"],
    [EvSendNon200Response "bad path" 400 (Some (errorString "write failed"));
     EvOnGeneralError (BadInputError "bad path")])).
Proof.
  exact (errorHandler_bad_input demoWorld demoBrokenSendNon200Response
           demoSuperTokens (BadInputError "bad path") demoMalformedRequest []
           eq_refl).
Defined.

(** [GET /auth/sessioninfo] without RID: [emailpassword] declines,
    [session] claims and handles the request. *)
Lemma middleware_without_rid_witness :
  FirstClaim demoSendNon200Response demoSuperTokens demoTheirHandler
    demoSessionInfoRequest
    (AppendPath (APIGatewayPath (AppInfo demoSuperTokens)) demoSessionInfoPath)
    (Method demoSessionInfoRequest) 0 (RecipeModules demoSuperTokens) ([], [])
    (demoMiddleware demoSessionInfoRequest ([], [])) ∧
  ∃ w' tr k last,
    demoMiddleware demoSessionInfoRequest ([], []) = (Done tt, (w', tr)) ∧
    answers tr = declines 0 k ++ last ∧
    ((last = [] ∧ k = length (RecipeModules demoSuperTokens) ∧
      servedTheirHandler tr = true) ∨
     (∃ id err, last = [(k, (id, err))] ∧ (id, err) ≠ (None, None) ∧
                (k < length (RecipeModules demoSuperTokens))%nat ∧
                servedTheirHandler tr = false)).
Proof.
  apply (middleware_without_rid demoWorld demoNewNormalisedURLPath
           demoGetRIDFromRequest demoSendNon200Response demoSuperTokens
           demoTheirHandler demoSessionInfoRequest demoSessionInfoPath []);
    reflexivity.
Defined.

(** [GET /auth/sessioninfo] with [RID: unknown-recipe] is passed on; with
    [RID: session] only the session recipe is asked, and it handles the
    request. *)
Lemma middleware_with_rid_witness :
  demoMiddleware (demoSessionInfoWithRID "unknown-recipe") ([], []) =
  (Done tt, (["passed on: /auth/sessioninfo"],
             [EvTheirHandler (demoSessionInfoWithRID "unknown-recipe")])) ∧
  ∃ w' tr,
    demoMiddleware (demoSessionInfoWithRID "session") ([], []) = (Done tt, (w', tr)) ∧
    answers tr = [(1%nat, (Some "/sessioninfo", None))] ∧
    (w', tr) =
    (["response: session fields"],
     [EvReturnAPIIdIfCanHandleRequest 1 demoSessionInfoPath "GET"
        (Some "/sessioninfo") None;
      EvHandleAPIRequest 1 "/sessioninfo" demoSessionInfoPath "GET" None]).
Proof.
  split.
  - refine (proj1 (middleware_with_rid demoWorld demoNewNormalisedURLPath
                     demoGetRIDFromRequest demoSendNon200Response demoSuperTokens
                     demoTheirHandler (demoSessionInfoWithRID "unknown-recipe")
                     demoSessionInfoPath [] eq_refl eq_refl _) _).
    + discriminate.
    + intros m Hm.
      apply elem_of_cons in Hm as [->|Hm]; [discriminate|].
      apply elem_of_cons in Hm as [->|Hm]; [discriminate|].
      inversion Hm.
  - refine (proj2 (middleware_with_rid demoWorld demoNewNormalisedURLPath
                     demoGetRIDFromRequest demoSendNon200Response demoSuperTokens
                     demoTheirHandler (demoSessionInfoWithRID "session")
                     demoSessionInfoPath [] eq_refl eq_refl _)
              [demoEmailPassword] demoSession [] (Some "/sessioninfo") None []
              eq_refl _ eq_refl eq_refl).
    + discriminate.
    + intros m Hm.
      apply elem_of_cons in Hm as [->|Hm]; [discriminate|].
      inversion Hm.
Defined.

(** [GET /profile] is outside [/auth]: passed on, no recipe call. *)
Lemma middleware_outside_base_path_witness :
  demoMiddleware demoProfileRequest ([], []) =
  (Done tt, (["passed on: /profile"], [EvTheirHandler demoProfileRequest])).
Proof.
  exact (middleware_outside_base_path demoWorld demoNewNormalisedURLPath
           demoGetRIDFromRequest demoSendNon200Response demoSuperTokens
           demoTheirHandler demoProfileRequest {| pathValue := "/profile" |} []
           eq_refl eq_refl).
Defined.

(** A path that cannot be normalised: the 400 response is written and the
    handler panics on the nil path. *)
Lemma middleware_failed_normalisation_witness :
  demoNewNormalisedURLPath (URLPath demoMalformedRequest) =
    (None, Some (BadInputError "Please provide a valid URL path")) ∧
  demoMiddleware demoMalformedRequest ([], []) =
  (Panicked NilPointerDereference,
   (["response: Please provide a valid URL path"],
    [EvSendNon200Response "Please provide a valid URL path" 400 None])).
Proof.
  split; [reflexivity|].
  exact (proj2 (proj1 (middleware_failed_normalisation demoWorld
                         demoNewNormalisedURLPath demoGetRIDFromRequest
                         demoSendNon200Response demoSuperTokens demoTheirHandler
                         demoMalformedRequest ([], []))
                  (BadInputError "Please provide a valid URL path") eq_refl)).
Defined.

(** C3. On the deployment, a [POST] to a path that cannot be normalised:
    the error chain writes the 400 response and the fallback handler is
    not called, but the handler does not stop there: it goes on to the
    next statement and panics on the nil normalised path. *)
Example middleware_malformed_path_keeps_running :
  demoMiddleware (demoRequest "POST" "signin" [("rid", "emailpassword")]) ([], []) =
  (Panicked NilPointerDereference,
   (["response: Please provide a valid URL path"],
    [EvSendNon200Response "Please provide a valid URL path" 400 None])).
Proof. reflexivity. Qed.

(** The headers of the deployment, with the keys of the map visited in
    reverse order: [rid] is declared by the session recipe as well and
    appears once. *)
Lemma getAllCORSHeaders_union_witness :
  (∀ m : gmap string bool, demoRangeKeys m ≡ₚ (map_to_list m).*1) ∧
  NoDup (getAllCORSHeaders "rid" "fdi-version" demoRangeKeys demoSuperTokens) ∧
  "rid" ∈ getAllCORSHeaders "rid" "fdi-version" demoRangeKeys demoSuperTokens ∧
  "fdi-version" ∈ getAllCORSHeaders "rid" "fdi-version" demoRangeKeys demoSuperTokens ∧
  ∀ h, h ∈ getAllCORSHeaders "rid" "fdi-version" demoRangeKeys demoSuperTokens ↔
       h = "rid" ∨ h = "fdi-version" ∨
       ∃ m, m ∈ RecipeModules demoSuperTokens ∧ h ∈ GetAllCORSHeaders m.
Proof.
  split.
  - intros m. apply reverse_Permutation.
  - apply (getAllCORSHeaders_union demoWorld "rid" "fdi-version" demoRangeKeys
             demoSuperTokens).
    intros m. apply reverse_Permutation.
Defined.

(** Without an implementation the refresh request is passed on; with one,
    it is called on the request's context and the empty 200 response is
    written. *)
Lemma HandleRefreshAPI_contract_witness :
  demoHandleRefreshAPI {| RefreshPOST := Some None |} demoOptions ([], []) =
  (Done None,
   (["passed on: /auth/session/refresh"], [EvOtherHandler (Req demoOptions)])) ∧
  demoHandleRefreshAPI {| RefreshPOST := Some (Some demoRefreshPOST) |}
    demoOptions ([], []) =
  (Done None,
   (["refreshed for /auth/session/refresh"; "response: 200 {}"],
    [EvRefreshPOST demoOptions "/auth/session/refresh" None;
     EvSend200Response None None])).
Proof.
  split.
  - apply (proj1 (HandleRefreshAPI_contract demoWorld string string string
                    _ _ {| RefreshPOST := Some None |} demoOptions [])).
    right. reflexivity.
  - exact (proj2 (HandleRefreshAPI_contract demoWorld string string string
                    _ _ {| RefreshPOST := Some (Some demoRefreshPOST) |}
                    demoOptions [])
             demoRefreshPOST eq_refl).
Defined.


(** ** Routing with and without RID *)

Section SingleModule.

Set Default Proof Using "Type".

Variable World : Type.
Variable NewNormalisedURLPath : string → option NormalisedURLPath * option error.
Variable SendNon200Response : string → Z → World → option error * World.

(** Two ways of reading the RID of a request. *)
Variable getRIDFromRequest getRIDFromRequest' : Request → string.


End SingleModule.

(** ** More of the deployment *)

(** A deployment whose only recipe has no [HandleError], and the
    deployment with its recipes registered the other way round. *)
Definition demoEmailPasswordOnly : superTokens demoWorld := {|
  AppInfo := demoAppInfo;
  RecipeModules := [demoEmailPassword];
  OnGeneralError := demoOnGeneralError
|}.


Definition demoSwapped : superTokens demoWorld := {|
  AppInfo := demoAppInfo;
  RecipeModules := [demoSession; demoEmailPassword];
  OnGeneralError := demoOnGeneralError
|}.

(** Configurations by connection URI, telemetry switch, app name and
    recipe list. *)
Definition demoConfigFor (uri : string) (telemetry : option bool)
    (appName : string) (recipeList : option (list (RecipeListFunction demoWorld)))
  : TypeInput demoWorld string := {|
  config_Supertokens := Some {| ConnectionURI := uri; APIKey := None |};
  config_AppInfo := appName;
  config_RecipeList := recipeList;
  config_Telemetry := telemetry;
  config_OnGeneralError := None
|}.

Definition demoEmailPasswordInit : RecipeListFunction demoWorld :=
  λ appInfo w, ((Some demoEmailPassword, None), w ++ ["emailpassword created"]).

Definition demoFailingInit : RecipeListFunction demoWorld :=
  λ appInfo w,
    ((None, Some (errorString "invalid recipe configuration")),
     w ++ ["failing recipe called"]).

(** A core that answers. *)
Definition demoCoreGetNewQuerier (rid : string) (w : demoWorld)
  : (option unit * option error) * demoWorld :=
  ((Some tt, None), w).

Definition demoCoreSendGetRequest (q : unit) (path : string) (w : demoWorld)
  : (gmap string GoValue * option error) * demoWorld :=
  (({[ "exists" := GoBool false ]}, None), w ++ ["GET " +:+ path]).

Definition demoCoreSendGetRequestWith (q : unit) (path : string)
    (params : gmap string GoValue) (w : demoWorld)
  : (gmap string GoValue * option error) * demoWorld :=
  (({[ "count" := GoNumber 2 ]}, None), w ++ ["GET " +:+ path]).

Definition demoCoreInit :=
  supertokensInit demoNormaliseInputAppInfoOrThrowError
    demoNewNormalisedURLDomain demoInitQuerier demoHTTPError
    demoCoreGetNewQuerier demoCoreSendGetRequest demoJSONMarshal
    demoNewRequest demoClientDo.

Definition demoCoreSendTelemetry :=
  sendTelemetry demoWorld unit demoCoreGetNewQuerier demoCoreSendGetRequest
    demoJSONMarshal unit demoNewRequest demoClientDo.

Definition demoGetUsers :=
  getUsers demoWorld unit demoCoreGetNewQuerier demoCoreSendGetRequestWith
    string (λ resp, ("{}", None)) (λ bytes, ("page", None)).

Definition demoGetUserCount :=
  getUserCount demoWorld unit demoCoreGetNewQuerier demoCoreSendGetRequestWith.

Definition demoGetUserCountOffline :=
  getUserCount demoWorld unit demoGetNewQuerier demoCoreSendGetRequestWith.

(** ** More properties on the deployment *)

Lemma errorHandler_without_hooks_witness :
  errorHandler demoSendNon200Response demoEmailPasswordOnly
    (errorString "boom") demoProfileRequest ([], []) =
  (Done tt, (["response: 500 boom"], [EvOnGeneralError (errorString "boom")])).
Proof.
  apply (errorHandler_without_hooks demoWorld demoSendNon200Response
           demoEmailPasswordOnly (errorString "boom") demoProfileRequest []).
  - repeat constructor.
  - reflexivity.
Defined.

Lemma middleware_log_shape_witness :
  ∃ w' checks rest,
    demoMiddleware demoSessionInfoRequest ([], []) =
      (Done tt, (w', checks ++ rest)) ∧
    forallb isDecline checks = true ∧
    RoutingEnd demoSessionInfoRequest
      (AppendPath (APIGatewayPath (AppInfo demoSuperTokens)) demoSessionInfoPath)
      (Method demoSessionInfoRequest) rest.
Proof.
  exact (middleware_log_shape demoWorld demoNewNormalisedURLPath
           demoGetRIDFromRequest demoSendNon200Response demoSuperTokens
           demoTheirHandler demoSessionInfoRequest demoSessionInfoPath []
           eq_refl).
Defined.

Lemma middleware_handles_or_passes_on_witness :
  ∃ w' tr,
    demoMiddleware demoSessionInfoRequest ([], []) = (Done tt, (w', tr)) ∧
    (length (handled tr) ≤ 1)%nat ∧
    (∀ i id, (i, id) ∈ handled tr → (i, (Some id, None)) ∈ answers tr) ∧
    (servedTheirHandler tr = true →
     handled tr = [] ∧ forallb (λ ev, negb (inErrorChain ev)) tr = true).
Proof.
  exact (middleware_handles_or_passes_on demoWorld demoNewNormalisedURLPath
           demoGetRIDFromRequest demoSendNon200Response demoSuperTokens
           demoTheirHandler demoSessionInfoRequest demoSessionInfoPath []
           eq_refl).
Defined.

Lemma middleware_failed_normalisation_log_witness :
  ∃ w' tr,
    demoMiddleware demoMalformedRequest ([], []) =
      (Panicked NilPointerDereference, (w', tr)) ∧
    forallb inErrorChain tr = true ∧
    answers tr = [] ∧ handled tr = [] ∧ servedTheirHandler tr = false ∧
    (errors_As_BadInputError (BadInputError "Please provide a valid URL path") = true →
     ∃ catcher,
       head tr = Some (EvSendNon200Response
                         (Error (BadInputError "Please provide a valid URL path"))
                         400 catcher)).
Proof.
  exact (middleware_failed_normalisation_log demoWorld demoNewNormalisedURLPath
           demoGetRIDFromRequest demoSendNon200Response demoSuperTokens
           demoTheirHandler demoMalformedRequest
           (BadInputError "Please provide a valid URL path") [] eq_refl).
Defined.

Lemma supertokensInit_fails_untouched_witness :
  demoInit (demoConfigFor "https://try.supertokens.io" None "" (Some [demoSessionInit]))
    demoGlobals =
  (Done (Some (errorString "Please provide your appName inside the appInfo object")),
   demoGlobals) ∧
  demoInit (demoConfigFor "https://a.example;ftp://b.example;c.example" None
              "SuperTokens Demo App" (Some [demoSessionInit]))
    demoGlobals =
  (Done (Some (errorString "Please provide a valid domain name")), demoGlobals).
Proof.
  split.
  - apply (proj1 (supertokensInit_fails_untouched
                    demoWorld string demoNormaliseInputAppInfoOrThrowError
                    demoNewNormalisedURLDomain demoInitQuerier demoHTTPError
                    unit demoGetNewQuerier demoSendGetRequest demoJSONMarshal
                    unit demoNewRequest demoClientDo
                    (demoConfigFor "https://try.supertokens.io" None ""
                       (Some [demoSessionInit]))
                    demoGlobals _ eq_refl)).
    reflexivity.
  - refine (proj2 (supertokensInit_fails_untouched
                     demoWorld string demoNormaliseInputAppInfoOrThrowError
                     demoNewNormalisedURLDomain demoInitQuerier demoHTTPError
                     unit demoGetNewQuerier demoSendGetRequest demoJSONMarshal
                     unit demoNewRequest demoClientDo
                     (demoConfigFor "https://a.example;ftp://b.example;c.example"
                        None "SuperTokens Demo App" (Some [demoSessionInit]))
                     demoGlobals _ eq_refl)
              {| ConnectionURI := "https://a.example;ftp://b.example;c.example";
                 APIKey := None |}
              ["https://a.example"] "ftp://b.example" ["c.example"] None
              eq_refl eq_refl eq_refl _ eq_refl).
    constructor; [eexists; reflexivity | constructor].
Defined.

Lemma supertokensInit_no_recipes_witness :
  demoInit (demoConfigFor "https://a.example;https://b.example" None
              "SuperTokens Demo App" None)
    demoGlobals =
  (Done (Some noRecipeError),
   {| superTokensInstance := None; world := ["querier initialised"] |}).
Proof.
  apply (supertokensInit_no_recipes
           demoWorld string demoNormaliseInputAppInfoOrThrowError
           demoNewNormalisedURLDomain demoInitQuerier demoHTTPError
           unit demoGetNewQuerier demoSendGetRequest demoJSONMarshal
           unit demoNewRequest demoClientDo
           (demoConfigFor "https://a.example;https://b.example" None
              "SuperTokens Demo App" None)
           demoGlobals demoAppInfo
           [{| domainValue := "https://a.example" |};
            {| domainValue := "https://b.example" |}] None).
  - reflexivity.
  - reflexivity.
  - split; [repeat constructor | reflexivity].
  - left. reflexivity.
Defined.

Lemma supertokensInit_failing_factory_witness :
  demoInit (demoConfigFor "https://try.supertokens.io" None "SuperTokens Demo App"
              (Some [demoEmailPasswordInit; demoFailingInit; demoEmailPasswordInit]))
    demoGlobals =
  (Done (Some (errorString "invalid recipe configuration")),
   {| superTokensInstance := None;
      world := ["querier initialised"; "emailpassword created";
                "failing recipe called"] |}).
Proof.
  apply (supertokensInit_failing_factory
           demoWorld string demoNormaliseInputAppInfoOrThrowError
           demoNewNormalisedURLDomain demoInitQuerier demoHTTPError
           unit demoGetNewQuerier demoSendGetRequest demoJSONMarshal
           unit demoNewRequest demoClientDo
           (demoConfigFor "https://try.supertokens.io" None "SuperTokens Demo App"
              (Some [demoEmailPasswordInit; demoFailingInit; demoEmailPasswordInit]))
           demoGlobals demoAppInfo
           [{| domainValue := "https://try.supertokens.io" |}] None
           [demoEmailPasswordInit] demoFailingInit [demoEmailPasswordInit]
           [demoEmailPassword]
           {| superTokensInstance := None;
              world := ["querier initialised"; "emailpassword created"] |}
           None (errorString "invalid recipe configuration")).
  - reflexivity.
  - reflexivity.
  - split; [repeat constructor | reflexivity].
  - reflexivity.
  - reflexivity.
  - reflexivity.
Defined.

Lemma supertokensInit_assigns_configuration_witness :
  superTokensInstance
    (demoInit (demoConfig "SuperTokens Demo App" (Some [demoSessionInit]))
       demoGlobals).2 = Some demoInitialised ∧
  OnGeneralError demoInitialised (errorString "boom") demoProfileRequest [] =
  ["response: 500 boom"].
Proof.
  split; [reflexivity|].
  exact (proj1 (proj2 (supertokensInit_assigns_configuration
                         demoWorld string demoNormaliseInputAppInfoOrThrowError
                         demoNewNormalisedURLDomain demoInitQuerier demoHTTPError
                         unit demoGetNewQuerier demoSendGetRequest demoJSONMarshal
                         unit demoNewRequest demoClientDo
                         (demoConfig "SuperTokens Demo App" (Some [demoSessionInit]))
                         demoGlobals _ _ demoInitialised eq_refl eq_refl eq_refl))
           (errorString "boom") demoProfileRequest []).
Defined.

Lemma supertokensInit_twice_witness :
  (∃ s, getInstanceOrThrowError
          (demoInit (demoConfig "SuperTokens Demo App" (Some [demoSessionInit]))
             demoGlobals).2 = (Some s, None)) ∧
  demoInit (demoConfig "" None)
    (demoInit (demoConfig "SuperTokens Demo App" (Some [demoSessionInit]))
       demoGlobals).2 =
  (Done None,
   (demoInit (demoConfig "SuperTokens Demo App" (Some [demoSessionInit]))
      demoGlobals).2).
Proof.
  exact (supertokensInit_twice
           demoWorld string demoNormaliseInputAppInfoOrThrowError
           demoNewNormalisedURLDomain demoInitQuerier demoHTTPError
           unit demoGetNewQuerier demoSendGetRequest demoJSONMarshal
           unit demoNewRequest demoClientDo
           (demoConfig "SuperTokens Demo App" (Some [demoSessionInit]))
           (demoConfig "" None) demoGlobals _ eq_refl).
Defined.

Lemma sendTelemetry_before_assignment_witness :
  ∃ p, demoCoreSendTelemetry demoGlobals =
       (Panicked p, {| superTokensInstance := None; world := ["GET /telemetry"] |}).
Proof.
  exact (proj2 (sendTelemetry_before_assignment demoWorld unit
                  demoCoreGetNewQuerier demoCoreSendGetRequest demoJSONMarshal
                  unit demoNewRequest demoClientDo demoGlobals eq_refl)
           tt [] {[ "exists" := GoBool false ]} ["GET /telemetry"]
           eq_refl eq_refl).
Defined.

Lemma supertokensInit_telemetry_never_succeeds_witness :
  (demoCoreInit (demoConfigFor "https://try.supertokens.io" (Some true)
                   "SuperTokens Demo App" (Some [demoSessionInit]))
     demoGlobals).1 ≠ Done None ∧
  superTokensInstance
    (demoCoreInit (demoConfigFor "https://try.supertokens.io" (Some true)
                     "SuperTokens Demo App" (Some [demoSessionInit]))
       demoGlobals).2 = None.
Proof.
  apply (supertokensInit_telemetry_never_succeeds
           demoWorld string demoNormaliseInputAppInfoOrThrowError
           demoNewNormalisedURLDomain demoInitQuerier demoHTTPError
           unit demoCoreGetNewQuerier demoCoreSendGetRequest demoJSONMarshal
           unit demoNewRequest demoClientDo
           (demoConfigFor "https://try.supertokens.io" (Some true)
              "SuperTokens Demo App" (Some [demoSessionInit]))
           demoGlobals).
  - intros w. exists tt, w, {[ "exists" := GoBool false ]}, (w ++ ["GET /telemetry"]).
    split; reflexivity.
  - reflexivity.
  - reflexivity.
  - reflexivity.
Defined.

Lemma getAllCORSHeaders_registration_order_witness :
  getAllCORSHeaders "rid" "fdi-version" demoRangeKeys demoSuperTokens ≡ₚ
  getAllCORSHeaders "rid" "fdi-version" demoRangeKeys demoSwapped.
Proof.
  apply (getAllCORSHeaders_registration_order demoWorld "rid" "fdi-version"
           demoRangeKeys demoSuperTokens demoSwapped).
  - intros m. apply reverse_Permutation.
  - apply perm_swap.
Defined.

Lemma getUsers_result_or_error_witness :
  demoGetUsers "ASC" (Some 10) None None ([], []) =
    (Done (Some "page", None),
     (["GET /users"],
      [EvGetNewQuerier "" None;
       EvSendGetRequest "/users"
         (<["limit" := GoNumber 10]> {[ "timeJoinedOrder" := GoString "ASC" ]})
         None])) ∧
  (Some "page" = None ↔ @None error ≠ None).
Proof.
  split; [reflexivity|].
  exact (getUsers_result_or_error demoWorld unit demoCoreGetNewQuerier
           demoCoreSendGetRequestWith string (λ resp, ("{}", None))
           (λ bytes, ("page", None)) "ASC" (Some 10) None None ([], [])
           (Some "page") None _ eq_refl).
Defined.

Lemma getUserCount_error_witness :
  demoGetUserCountOffline None ([], []) =
    (Done (-1, Some (errorString "no querier")),
     ([], [EvGetNewQuerier "" (Some (errorString "no querier"))])) ∧
  -1 = -1.
Proof.
  split; [reflexivity|].
  exact (getUserCount_error demoWorld unit demoGetNewQuerier
           demoCoreSendGetRequestWith None ([], []) (-1)
           (errorString "no querier") _ eq_refl).
Defined.

Lemma getUserCount_reads_count_witness :
  demoGetUserCount (Some ["emailpassword"; "session"]) ([], []) =
  (Done (2, None),
   (["GET /users/count"],
    [EvGetNewQuerier "" None;
     EvSendGetRequest "/users/count"
       {[ "includeRecipeIds" := GoString "emailpassword,session" ]} None])).
Proof.
  exact (getUserCount_reads_count demoWorld unit demoCoreGetNewQuerier
           demoCoreSendGetRequestWith (Some ["emailpassword"; "session"])
           [] tt [] {[ "count" := GoNumber 2 ]} ["GET /users/count"]
           eq_refl eq_refl).
Defined.

